(** * Drama Catalog API (server.js): a shallow embedding and its properties

    The development follows the layout of [src/server.js]:

    - [JS]      the part of the JavaScript run-time the handlers rely on
                (values, truthiness, coercions, string and array built-ins);
    - [Server]  configuration, the lowdb store, [requireKey], [paginate]
                and the seven route handlers;
    - the properties of the handlers, one theorem per documented behaviour.

    Modelling conventions.
    - A JavaScript number is [NaN], an infinity or an exact rational. The
      conversion of a string to a number rounds to binary64
      ([JS.binary64]); the arithmetic operators are exact, and the sign of
      zero is not represented.
    - A string is a sequence of 8-bit characters, that is ASCII text;
      [toLowerCase] and [trim] act on the ASCII letters and the ASCII
      white space, and what the built-ins do to other characters is not
      represented.
    - An object is a finite map from property names to values, so
      the enumeration order of properties is not represented; property
      lookup sees own properties only.
    - [new Date().toISOString()], [nanoid(12)] and the number of
      arguments the engine takes in one call are read from the environment
      of a request ([Server.env]).
    - A request runs from its first line to its last on the store it
      finds; whether lowdb's [read] and [write] fail during it is given by
      [Server.faults], and [Server.handle] is the application on a store
      that does not fail. *)

From Stdlib Require Import ZArith QArith Qround Qcanon String Ascii List Lia.
From stdpp Require Import gmap strings list fin_maps pretty sorting.

#[local] Set Warnings "-register-all".
#[local] Open Scope string_scope.
#[local] Open Scope list_scope.
#[local] Open Scope nat_scope.

Module JS.

(** ** Numbers *)

Inductive num :=
| NaN
| Inf (neg : bool)
| Fin (q : Q).

Definition num_of_Z (z : Z) : num := Fin (inject_Z z).
Definition num_of_nat (n : nat) : num := num_of_Z (Z.of_nat n).

Definition Qsign_neg (q : Q) : bool := (Qnum q <? 0)%Z.
Definition Qis_zero (q : Q) : bool := (Qnum q =? 0)%Z.

(** [a + b] *)
Definition num_add (a b : num) : num :=
  match a, b with
  | NaN, _ | _, NaN => NaN
  | Inf s, Inf t => if Bool.eqb s t then Inf s else NaN
  | Inf s, Fin _ | Fin _, Inf s => Inf s
  | Fin x, Fin y => Fin (Qred (x + y))
  end.

(** [a - b] *)
Definition num_sub (a b : num) : num :=
  match a, b with
  | NaN, _ | _, NaN => NaN
  | Inf s, Inf t => if Bool.eqb s t then NaN else Inf s
  | Inf s, Fin _ => Inf s
  | Fin _, Inf s => Inf (negb s)
  | Fin x, Fin y => Fin (Qred (x - y))
  end.

(** [a * b] *)
Definition num_mul (a b : num) : num :=
  match a, b with
  | NaN, _ | _, NaN => NaN
  | Inf s, Inf t => Inf (xorb s t)
  | Inf s, Fin y | Fin y, Inf s =>
      if Qis_zero y then NaN else Inf (xorb s (Qsign_neg y))
  | Fin x, Fin y => Fin (Qred (x * y))
  end.

(** [a / b] *)
Definition num_div (a b : num) : num :=
  match a, b with
  | NaN, _ | _, NaN => NaN
  | Inf _, Inf _ => NaN
  | Inf s, Fin y => Inf (xorb s (Qsign_neg y))
  | Fin _, Inf _ => Fin 0
  | Fin x, Fin y =>
      if Qis_zero y then (if Qis_zero x then NaN else Inf (Qsign_neg x))
      else Fin (Qred (x / y))
  end.

(** The abstract comparison [a < b]; [None] is the "undefined" outcome
    that arises when an operand is [NaN]. *)
Definition num_lt (a b : num) : option bool :=
  match a, b with
  | NaN, _ | _, NaN => None
  | Inf s, Inf t => Some (s && negb t)
  | Inf s, Fin _ => Some s
  | Fin _, Inf t => Some (negb t)
  | Fin x, Fin y => Some (negb (Qle_bool y x))
  end.

(** [a >= b] and [a <= b] on numbers *)
Definition num_ge (a b : num) : bool :=
  match num_lt a b with Some false => true | _ => false end.
Definition num_le (a b : num) : bool :=
  match num_lt b a with Some false => true | _ => false end.

(** [Math.ceil] *)
Definition Math_ceil (a : num) : num :=
  match a with
  | Fin q => num_of_Z (Qceiling q)
  | _ => a
  end.

(** Integers extended with the two infinities, the range of
    ToIntegerOrInfinity. *)
Inductive extint :=
| EInf (neg : bool)
| EInt (z : Z).

Definition Qtrunc (q : Q) : Z :=
  if Qsign_neg q then Qceiling q else Qfloor q.

Definition ToIntegerOrInfinity (a : num) : extint :=
  match a with
  | NaN => EInt 0
  | Inf s => EInf s
  | Fin q => EInt (Qtrunc q)
  end.

(** ToLength: the integer part, brought into [0 .. 2^53 - 1]. *)
Definition ToLength (a : num) : Z :=
  match ToIntegerOrInfinity a with
  | EInt z => Z.min (Z.max z 0) (2 ^ 53 - 1)
  | EInf true => 0
  | EInf false => 2 ^ 53 - 1
  end.

(** ** Strings *)

Definition is_upper (c : ascii) : bool :=
  ((65 <=? nat_of_ascii c) && (nat_of_ascii c <=? 90))%nat.

Definition lower_char (c : ascii) : ascii :=
  if is_upper c then ascii_of_nat (nat_of_ascii c + 32) else c.

(** [s.toLowerCase()] *)
Fixpoint toLowerCase (s : string) : string :=
  match s with
  | EmptyString => EmptyString
  | String c s' => String (lower_char c) (toLowerCase s')
  end.

(** [s.includes(q)] *)
Fixpoint includes (s q : string) : bool :=
  if String.prefix q s then true
  else match s with
       | EmptyString => false
       | String _ s' => includes s' q
       end.

(** White space and line terminators (the ASCII ones). *)
Definition is_space (c : ascii) : bool :=
  let n := nat_of_ascii c in
  ((n =? 32) || ((9 <=? n) && (n <=? 13)))%nat.

Fixpoint trimStart (s : string) : string :=
  match s with
  | String c s' => if is_space c then trimStart s' else s
  | EmptyString => EmptyString
  end.

Fixpoint trimEnd (s : string) : string :=
  match s with
  | EmptyString => EmptyString
  | String c s' =>
      match trimEnd s' with
      | EmptyString => if is_space c then EmptyString else String c EmptyString
      | r => String c r
      end
  end.

(** [s.trim()] *)
Definition trim (s : string) : string := trimEnd (trimStart s).

(** ** Numeric literals in strings *)

Definition digit_of (base : Z) (c : ascii) : option Z :=
  let n := Z.of_nat (nat_of_ascii c) in
  let d := (if (48 <=? n) && (n <=? 57) then n - 48
            else if (97 <=? n) && (n <=? 102) then n - 87
            else if (65 <=? n) && (n <=? 70) then n - 55
            else 99)%Z in
  if (d <? base)%Z then Some d else None.

(** The longest run of digits at the head of [s]: its value on top of
    [acc], the number of digits read on top of [k], and what follows. *)
Fixpoint read_digits (base : Z) (s : string) (acc : Z) (k : nat)
  : Z * nat * string :=
  match s with
  | String c s' =>
      match digit_of base c with
      | Some d => read_digits base s' (acc * base + d)%Z (S k)
      | None => (acc, k, s)
      end
  | EmptyString => (acc, k, s)
  end.

Definition read_sign (s : string) : bool * string :=
  match s with
  | String "-"%char s' => (true, s')
  | String "+"%char s' => (false, s')
  | _ => (false, s)
  end.

Definition pow10 (e : Z) : Q :=
  if (e <? 0)%Z then 1 # Z.to_pos (10 ^ (- e)) else inject_Z (10 ^ e).

(** An optional ExponentPart that must reach the end of the string;
    [None] when what is there is not one. *)
Definition read_exponent (s : string) : option Z :=
  match s with
  | EmptyString => Some 0%Z
  | String c s' =>
      if (Ascii.eqb c "e" || Ascii.eqb c "E")%bool then
        let (neg, s1) := read_sign s' in
        match read_digits 10 s1 0 0 with
        | (v, S _, EmptyString) => Some (if neg then (- v)%Z else v)
        | _ => None
        end
      else None
  end.

(** StrUnsignedDecimalLiteral without the [Infinity] case *)
Definition read_decimal (s : string) : num :=
  let '(i, ki, s1) := read_digits 10 s 0 0 in
  let '(f, kf, s2) :=
    match s1 with
    | String "."%char s' => read_digits 10 s' 0 0
    | _ => (0%Z, 0, s1)
    end in
  if (ki + kf =? 0)%nat then NaN
  else match read_exponent s2 with
       | Some e =>
           Fin (Qred ((inject_Z i + inject_Z f * pow10 (- Z.of_nat kf))
                      * pow10 e))
       | None => NaN
       end.

Definition read_radix (base : Z) (s : string) : num :=
  match read_digits base s 0 0 with
  | (v, S _, EmptyString) => num_of_Z v
  | _ => NaN
  end.

Definition num_neg (a : num) : num :=
  match a with
  | NaN => NaN
  | Inf s => Inf (negb s)
  | Fin q => Fin (Qred (- q))
  end.

(** ** The Number value of a real

    [binary64 x] is the double nearest to the rational [x]: 53 bits of
    significand, exponents down to the subnormals, round to nearest with a
    tie to the even significand, and an infinity from [2^1024 - 2^970]
    up. *)

(** [n / d] rounded to the nearest integer, a tie to the even one
    ([d > 0]). *)
Definition round_div (n d : Z) : Z :=
  let q := (n / d)%Z in
  match (2 * (n mod d) ?= d)%Z with
  | Lt => q
  | Gt => (q + 1)%Z
  | Eq => if Z.even q then q else (q + 1)%Z
  end.

(** [(n / d) / 2^e] as a numerator and a denominator. *)
Definition scaled (n d e : Z) : Z * Z :=
  if (0 <=? e)%Z then (n, d * 2 ^ e)%Z else (n * 2 ^ (- e), d)%Z.

(** The [k] with [2^k <= n / d < 2^(k+1)], for [n, d > 0]. *)
Definition floor_log2 (n d : Z) : Z :=
  let k := (Z.log2 n - Z.log2 d)%Z in
  let (a, b) := scaled n d k in
  if (a <? b)%Z then (k - 1)%Z else k.

Definition significand (n d e : Z) : Z :=
  let (a, b) := scaled n d e in round_div a b.

Definition pow2 (e : Z) : Q :=
  if (e <? 0)%Z then 1 # Z.to_pos (2 ^ (- e)) else inject_Z (2 ^ e).

Definition binary64 (x : Q) : num :=
  let n := Z.abs (Qnum x) in
  let d := Z.pos (Qden x) in
  if (n =? 0)%Z then Fin 0
  else
    let e := Z.max (floor_log2 n d - 52) (-1074) in
    let m := significand n d e in
    if ((0 <=? e) && (2 ^ 1024 <=? m * 2 ^ e))%Z then Inf (Qsign_neg x)
    else Fin (Qred ((if Qsign_neg x then - inject_Z m else inject_Z m)
                    * pow2 e)).

(** The mathematical value of a StringNumericLiteral: the number [s]
    writes, before it is rounded, and [NaN] when [s] writes none. *)
Definition literal_value (s : string) : num :=
  match trim s with
  | EmptyString => num_of_Z 0
  | String "0"%char (String c r) as t =>
      if (Ascii.eqb c "x" || Ascii.eqb c "X")%bool then read_radix 16 r
      else if (Ascii.eqb c "o" || Ascii.eqb c "O")%bool then read_radix 8 r
      else if (Ascii.eqb c "b" || Ascii.eqb c "B")%bool then read_radix 2 r
      else read_decimal t
  | t =>
      let (neg, u) := read_sign t in
      let a := if String.eqb u "Infinity" then Inf false else read_decimal u in
      if neg then num_neg a else a
  end.

(** StringToNumber: what [Number(s)] is for a string [s], the Number
    value of what [s] writes. *)
Definition StringToNumber (s : string) : num :=
  match literal_value s with
  | Fin q => binary64 q
  | a => a
  end.

(** The digits after the decimal point of [r / d], for [0 <= r < d]. *)
Fixpoint frac_digits (fuel : nat) (r d : Z) : string :=
  match fuel with
  | O => EmptyString
  | S fuel' =>
      if (r =? 0)%Z then EmptyString
      else String (ascii_of_nat (48 + Z.to_nat (r * 10 / d)))
                  (frac_digits fuel' (r * 10 mod d)%Z d)
  end.

(** Number::toString. Integers and decimal fractions are printed in
    full in positional notation (the exponent notation of very large and
    very small magnitudes is not reproduced; either form reads back as the
    same number). *)
Definition NumberToString (a : num) : string :=
  match a with
  | NaN => "NaN"
  | Inf false => "Infinity"
  | Inf true => "-Infinity"
  | Fin q =>
      let q' := Qred q in
      let n := Z.abs (Qnum q') in
      let d := Zpos (Qden q') in
      let fr := frac_digits (Pos.size_nat (Qden q')) (n mod d)%Z d in
      (if (Qnum q' <? 0)%Z then "-" else "")
        +:+ pretty (n / d)%Z
        +:+ (match fr with EmptyString => "" | _ => "." +:+ fr end)
  end.

(** ** Values *)

Inductive value :=
| Undefined
| Null
| Bool (b : bool)
| Num (n : num)
| Str (s : string)
| Arr (l : list value)
| Obj (m : gmap string value).

(** An object is the map of its own properties. *)
Abbreviation object := (gmap string value).

Inductive error :=
| TypeError (msg : string)
| RangeError (msg : string)
| StorageError (msg : string).  (* what lowdb's [read], [write] reject with *)

(** The outcome of evaluating an expression: a value or a thrown error. *)
Inductive result (A : Type) :=
| Ok (a : A)
| Throw (e : error).
Arguments Ok {A} a.
Arguments Throw {A} e.

#[export] Instance result_ret : MRet result := @Ok.
#[export] Instance result_bind : MBind result := λ A B f r,
  match r with
  | Ok a => f a
  | Throw e => Throw e
  end.

(** ToBoolean *)
Definition truthy (v : value) : bool :=
  match v with
  | Undefined | Null => false
  | Bool b => b
  | Num NaN => false
  | Num (Inf _) => true
  | Num (Fin q) => negb (Qis_zero q)
  | Str s => negb (String.eqb s "")
  | Arr _ | Obj _ => true
  end.

(** [a || b] on values already evaluated *)
Definition or_else (a b : value) : value := if truthy a then a else b.

(** [a ?? b] *)
Definition nullish (v : value) : bool :=
  match v with Undefined | Null => true | _ => false end.

(** [Array.isArray(v)] *)
Definition isArray (v : value) : bool :=
  match v with Arr _ => true | _ => false end.

(** [o.k] and [o[k]] for an object [o] *)
Definition get (o : object) (k : string) : value := default Undefined (o !! k).

(** [v.k] for a non-nullish value [v] and a name [k] that no prototype
    defines: an own property or [undefined]. *)
Definition member (v : value) (k : string) : value :=
  match v with
  | Obj m => get m k
  | _ => Undefined
  end.

(** [Array.prototype.join] with the texts of the elements already known:
    [sep] goes between consecutive elements. *)
Fixpoint join (sep : string) (l : list string) : string :=
  match l with
  | [] => ""
  | [s] => s
  | s :: l' => s +:+ sep +:+ join sep l'
  end.

(** ToString. A plain object goes through OrdinaryToPrimitive: its
    values come from JSON, so an own [toString] is not callable and the
    conversion throws; otherwise [Object.prototype.toString] answers. An
    array goes through [Array.prototype.join]. *)
Fixpoint ToString (v : value) : result string :=
  match v with
  | Undefined => Ok "undefined"
  | Null => Ok "null"
  | Bool true => Ok "true"
  | Bool false => Ok "false"
  | Num n => Ok (NumberToString n)
  | Str s => Ok s
  | Arr l =>
      (fix elements (l : list value) : result (list string) :=
         match l with
         | [] => Ok []
         | x :: l' =>
             s ← (if nullish x then Ok "" else ToString x);
             r ← elements l';
             Ok (s :: r)
         end) l ≫= λ ss, Ok (join "," ss)
  | Obj m =>
      match m !! "toString" with
      | Some _ => Throw (TypeError "Cannot convert object to primitive value")
      | None => Ok "[object Object]"
      end
  end.

(** ToNumber, that is [Number(v)]. *)
Definition ToNumber (v : value) : result num :=
  match v with
  | Undefined => Ok NaN
  | Null => Ok (num_of_Z 0)
  | Bool true => Ok (num_of_Z 1)
  | Bool false => Ok (num_of_Z 0)
  | Num n => Ok n
  | Str s => Ok (StringToNumber s)
  | Arr _ | Obj _ => s ← ToString v; Ok (StringToNumber s)
  end.

(** What [JSON.parse(JSON.stringify(v))] is: properties holding
    [undefined] are dropped, [undefined] inside an array and the numbers
    that are not finite become [null]. *)
Fixpoint json (v : value) : value :=
  match v with
  | Num (Fin _) => v
  | Num _ => Null
  | Arr l => Arr ((λ x, match x with Undefined => Null | _ => json x end) <$> l)
  | Obj m =>
      Obj (omap (λ x, match x with Undefined => None | _ => Some (json x) end) m)
  | _ => v
  end.

(** An element of an array and a property of an object on their way
    through JSON. *)
Definition json_element (x : value) : value :=
  match x with Undefined => Null | _ => json x end.
Definition json_property (x : value) : option value :=
  match x with Undefined => None | _ => Some (json x) end.

Definition json_object (o : object) : object := omap json_property o.

(** The number of nodes of a value, the measure for induction on values. *)
Fixpoint nodes (v : value) : nat :=
  match v with
  | Arr l => S (list_sum (map nodes l))
  | Obj m => S (map_fold (λ _ x acc, nodes x + acc) 0 m)
  | _ => 1
  end.

(** The own enumerable properties that [{...v}] copies. *)
Definition spread (v : value) : object :=
  match v with
  | Obj m => m
  | Arr l => list_to_map (imap (λ i x, (pretty i, x)) l)
  | Str s =>
      list_to_map
        (imap (λ i c, (pretty i, Str (String c EmptyString)))
              (list_ascii_of_string s))
  | _ => ∅
  end.

(** [v === s] for a string [s] *)
Definition strict_eq_str (v : value) (s : string) : bool :=
  match v with
  | Str t => String.eqb t s
  | _ => false
  end.

(** The relational operators on values. With a number on the right,
    [a >= n] and [a <= n] convert [a] to a number. *)
Definition ge_num (a : value) (n : num) : result bool :=
  x ← ToNumber a; Ok (num_ge x n).
Definition le_num (a : value) (n : num) : result bool :=
  x ← ToNumber a; Ok (num_le x n).

Definition ToPrimitive (v : value) : result value :=
  match v with
  | Arr _ | Obj _ => s ← ToString v; Ok (Str s)
  | _ => Ok v
  end.

(** [a < b]; [None] is the undefined outcome, which [if] takes as false. *)
Definition less_than (a b : value) : result (option bool) :=
  pa ← ToPrimitive a;
  pb ← ToPrimitive b;
  match pa, pb with
  | Str s, Str t => Ok (Some (String.ltb s t))
  | _, _ => x ← ToNumber pa; y ← ToNumber pb; Ok (num_lt x y)
  end.

(** ** Arrays *)

(** A relative index of [slice], clamped to the array. *)
Definition rel_index (len : nat) (i : extint) : nat :=
  match i with
  | EInf true => 0
  | EInf false => len
  | EInt z =>
      if (z <? 0)%Z then Z.to_nat (Z.max (Z.of_nat len + z) 0)
      else Z.to_nat (Z.min z (Z.of_nat len))
  end.

(** [l.slice(start, end)] *)
Definition slice {A} (l : list A) (start end_ : num) : list A :=
  let k := rel_index (length l) (ToIntegerOrInfinity start) in
  let final := rel_index (length l) (ToIntegerOrInfinity end_) in
  take (final - k) (drop k l).

(** [l.filter(p)] for a callback that may throw: the elements are
    visited in order and the value the callback returns is taken as a
    boolean. *)
Fixpoint filter_r {A} (p : A → result value) (l : list A) : result (list A) :=
  match l with
  | [] => Ok []
  | x :: l' =>
      b ← p x;
      r ← filter_r p l';
      Ok (if truthy b then x :: r else r)
  end.

(** [l.some(p)], which stops at the first element that passes. *)
Fixpoint some_r {A} (p : A → result bool) (l : list A) : result bool :=
  match l with
  | [] => Ok false
  | x :: l' => b ← p x; if b : bool then Ok true else some_r p l'
  end.

(** [l.sort(cmp)] as a stable insertion sort. The element [x] stood
    before those of [l]; it moves right past the elements it is greater
    than. (For a comparison that is not a consistent order the standard
    leaves the outcome to the implementation.) *)
Fixpoint insert_sorted {A} (cmp : A → A → result Z) (x : A) (l : list A)
  : result (list A) :=
  match l with
  | [] => Ok [x]
  | y :: l' =>
      c ← cmp x y;
      if (0 <? c)%Z then r ← insert_sorted cmp x l'; Ok (y :: r)
      else Ok (x :: l)
  end.

Fixpoint sort {A} (cmp : A → A → result Z) (l : list A) : result (list A) :=
  match l with
  | [] => Ok []
  | x :: l' => r ← sort cmp l'; insert_sorted cmp x r
  end.

(** [s.split(':')] *)
Fixpoint split_colon (s : string) : list string :=
  match s with
  | EmptyString => [EmptyString]
  | String c s' =>
      if Ascii.eqb c ":" then EmptyString :: split_colon s'
      else match split_colon s' with
           | [] => [String c EmptyString]
           | w :: ws => String c w :: ws
           end
  end.

End JS.

Module Server.
Import JS.

(** ** CONFIG *)

Record config := { env_API_KEY : option string }.

(** [process.env.API_KEY || 'supersecretkey'] *)
Definition API_KEY (cfg : config) : string :=
  match env_API_KEY cfg with
  | Some s => if String.eqb s "" then "supersecretkey" else s
  | None => "supersecretkey"
  end.

(** ** DB SETUP

    [file] is the [dramas] array of [./data.json], [data] is
    [db.data.dramas], and [log] records the calls of [db.read()] and
    [db.write()] in the order they were made. The elements of [dramas]
    are objects: the routes put nothing else there. *)

Inductive access := Read | Write.

Record store := {
  file : list object;
  data : list object;
  log : list access
}.

(** A handler runs on the store and ends with a value or a thrown error. *)
Definition handler (A : Type) : Type := store → result A * store.

#[export] Instance handler_ret : MRet handler := λ A a st, (Ok a, st).
#[export] Instance handler_bind : MBind handler := λ A B f m st,
  match m st with
  | (Ok a, st') => f a st'
  | (Throw e, st') => (Throw e, st')
  end.

Definition eval {A} (r : result A) : handler A := λ st, (r, st).

(** Whether the [db.read()] and the [db.write()] of a request fail (the
    file cannot be read or parsed, the disk cannot be written). *)
Record faults := {
  read_fails : bool;
  write_fails : bool
}.

(** A store that works. *)
Definition reliable : faults := {| read_fails := false; write_fails := false |}.

(** [await db.read()]; a read that fails leaves [db.data] as it is. *)
Definition db_read (io : faults) : handler unit := λ st,
  if read_fails io
  then (Throw (StorageError "read"),
        {| file := file st; data := data st; log := log st ++ [Read] |})
  else (Ok (),
        {| file := file st; data := file st; log := log st ++ [Read] |}).

(** [await db.write()]; lowdb writes a temporary file and renames it, so
    a write that fails leaves the file as it is. *)
Definition db_write (io : faults) : handler unit := λ st,
  if write_fails io
  then (Throw (StorageError "write"),
        {| file := file st; data := data st; log := log st ++ [Write] |})
  else (Ok (),
        {| file := json_object <$> data st; data := data st;
           log := log st ++ [Write] |}).

(** [db.data.dramas] read and assigned *)
Definition dramas : handler (list object) := λ st, (Ok (data st), st).
Definition set_dramas (l : list object) : handler unit := λ st,
  (Ok (), {| file := file st; data := l; log := log st |}).

(** Lines 14-17: the store after start-up, from what [./data.json] held. *)
Definition startup (on_disk : option (list object)) : store :=
  let d := default [] on_disk in
  {| file := json_object <$> d; data := d; log := [Read; Write] |}.

(** ** Requests and responses *)

Inductive route :=
| Root                          (* GET / *)
| ListDramas                    (* GET /api/dramas *)
| DramaDetail (id : string)     (* GET /api/dramas/:id *)
| CreateDrama                   (* POST /api/dramas *)
| UpdateDrama (id : string)     (* PUT /api/dramas/:id *)
| DeleteDrama (id : string)     (* DELETE /api/dramas/:id *)
| Seed.                         (* POST /api/seed *)

Record request := {
  target : route;
  headers : gmap string string;
  query : object;
  body : value
}.

Record response := {
  status : nat;
  sent : value
}.

(** [res.json(v)] and [res.status(c).json(v)] *)
Definition res_status_json (c : nat) (v : value) : response :=
  {| status := c; sent := json v |}.
Definition res_json (v : value) : response := res_status_json 200 v.

(** What a request reads from outside the program: the [k]-th result of
    [new Date().toISOString()] and of [nanoid(12)] while it is handled,
    and the greatest number of arguments the engine passes in one call at
    that point (the stack it has left; a spread of more throws a
    RangeError). *)
Record env := {
  now : nat → string;
  nanoid : nat → string;
  max_arguments : Z
}.

(** ** MIDDLEWARE *)

Definition header (req : request) (name : string) : value :=
  match headers req !! name with
  | Some s => Str s
  | None => Undefined
  end.

Definition requireKey (cfg : config) (req : request)
    (next : handler response) : handler response :=
  let key := header req "x-api-key" in
  if negb (strict_eq_str key (API_KEY cfg))
  then mret (res_status_json 401 (Obj {[ "error" := Str "Unauthorized" ]}))
  else next.

(** ** UTILS *)

Record page_result := {
  items : list object;
  page : num;
  limit : num;
  total : nat;
  pages : num
}.

(** [paginate(array, page = 1, limit = 24)]; [None] is an argument left
    out. *)
Definition paginate (array : list object) (page limit : option num)
  : page_result :=
  let page := default (num_of_Z 1) page in
  let limit := default (num_of_Z 24) limit in
  let start := num_mul (num_sub page (num_of_Z 1)) limit in
  let end_ := num_add start limit in
  {| items := slice array start end_;
     page := page;
     limit := limit;
     total := length array;
     pages := Math_ceil (num_div (num_of_nat (length array)) limit) |}.

Definition page_value (pg : page_result) : value :=
  Obj {[ "items" := Arr (Obj <$> items pg);
         "page" := Num (page pg);
         "limit" := Num (limit pg);
         "total" := Num (num_of_nat (total pg));
         "pages" := Num (pages pg) ]}.

(** ** ROUTES *)

Definition get_root : handler response :=
  mret (res_json (Obj {[ "ok" := Bool true;
                         "service" := Str "Drama Catalog API";
                         "version" := Str "1.0.0" ]})).

(** *** List + search + filter + sort + pagination *)

(** A destructured query parameter with its default. *)
Definition param (q : object) (k : string) (dflt : value) : value :=
  match get q k with
  | Undefined => dflt
  | v => v
  end.

(** [v?.toLowerCase().includes(q)] *)
Definition lower_includes (v : value) (q : string) : result value :=
  match v with
  | Undefined | Null => Ok Undefined
  | Str s => Ok (Bool (includes (toLowerCase s) q))
  | _ => Throw (TypeError "toLowerCase is not a function")
  end.

(** [d => d.title?.toLowerCase().includes(q) ||
          d.description?.toLowerCase().includes(q)] *)
Definition search_matches (q : string) (d : object) : result value :=
  a ← lower_includes (get d "title") q;
  if truthy a then Ok a else lower_includes (get d "description") q.

Definition search_filter (search : value) (lst : list object)
  : result (list object) :=
  if truthy search then
    s ← ToString search;
    filter_r (search_matches (toLowerCase s)) lst
  else Ok lst.

(** [x => x.toLowerCase() === g] *)
Definition lower_equals (g : string) (x : value) : result bool :=
  match x with
  | Str s => Ok (String.eqb (toLowerCase s) g)
  | Undefined | Null =>
      Throw (TypeError "Cannot read properties of undefined")
  | _ => Throw (TypeError "toLowerCase is not a function")
  end.

(** [d => (d.genres||[]).some(x => x.toLowerCase() === g)] *)
Definition genre_matches (g : string) (d : object) : result value :=
  match or_else (get d "genres") (Arr []) with
  | Arr l => b ← some_r (lower_equals g) l; Ok (Bool b)
  | _ => Throw (TypeError "some is not a function")
  end.

Definition genre_filter (genre : value) (lst : list object)
  : result (list object) :=
  if truthy genre then
    s ← ToString genre;
    filter_r (genre_matches (toLowerCase s)) lst
  else Ok lst.

(** [d => (d.status||'').toLowerCase() === s] *)
Definition status_matches (s : string) (d : object) : result value :=
  match or_else (get d "status") (Str "") with
  | Str t => Ok (Bool (String.eqb (toLowerCase t) s))
  | _ => Throw (TypeError "toLowerCase is not a function")
  end.

Definition status_filter (status : value) (lst : list object)
  : result (list object) :=
  if truthy status then
    s ← ToString status;
    filter_r (status_matches (toLowerCase s)) lst
  else Ok lst.

(** [d => (d.year||0) >= Number(min_year)] *)
Definition min_year_matches (min_year : value) (d : object) : result value :=
  let y := or_else (get d "year") (Num (num_of_Z 0)) in
  m ← ToNumber min_year;
  b ← ge_num y m;
  Ok (Bool b).

(** [d => (d.year||9999) <= Number(max_year)] *)
Definition max_year_matches (max_year : value) (d : object) : result value :=
  let y := or_else (get d "year") (Num (num_of_Z 9999)) in
  m ← ToNumber max_year;
  b ← le_num y m;
  Ok (Bool b).

Definition min_year_filter (min_year : value) (lst : list object)
  : result (list object) :=
  if truthy min_year then filter_r (min_year_matches min_year) lst
  else Ok lst.

Definition max_year_filter (max_year : value) (lst : list object)
  : result (list object) :=
  if truthy max_year then filter_r (max_year_matches max_year) lst
  else Ok lst.

(** The comparison function of the sort, for [field] and [dir]. *)
Definition compare_by (field : string) (dir : value) (a b : object)
  : result Z :=
  let av := if nullish (get a field) then Num (num_of_Z 0) else get a field in
  let bv := if nullish (get b field) then Num (num_of_Z 0) else get b field in
  lt ← less_than av bv;
  if default false lt
  then Ok (if strict_eq_str dir "desc" then 1 else -1)%Z
  else
    gt ← less_than bv av;
    if default false gt
    then Ok (if strict_eq_str dir "desc" then -1 else 1)%Z
    else Ok 0%Z.

(** [const [field, dir] = String(sort).split(':'); list.sort(...)] *)
Definition sort_by (sort_param : value) (lst : list object)
  : result (list object) :=
  s ← ToString sort_param;
  let parts := split_colon s in
  let field := default "" (parts !! 0) in
  let dir := from_option Str Undefined (parts !! 1) in
  sort (compare_by field dir) lst.

Definition list_dramas (io : faults) (req : request) : handler response :=
  db_read io;;
  let q := query req in
  let search := param q "search" (Str "") in
  let genre := get q "genre" in
  let status := get q "status" in
  let min_year := get q "min_year" in
  let max_year := get q "max_year" in
  let sort_param := param q "sort" (Str "updated_at:desc") in
  let page := param q "page" (Str "1") in
  let limit := param q "limit" (Str "24") in
  lst ← dramas;
  lst ← eval (search_filter search lst);
  lst ← eval (genre_filter genre lst);
  lst ← eval (status_filter status lst);
  lst ← eval (min_year_filter min_year lst);
  lst ← eval (max_year_filter max_year lst);
  lst ← eval (sort_by sort_param lst);
  p ← eval (ToNumber page);
  l ← eval (ToNumber limit);
  mret (res_json (page_value (paginate lst (Some p) (Some l)))).

(** *** Detail *)

Definition has_id (id : string) (d : object) : bool :=
  strict_eq_str (get d "id") id.

Definition drama_detail (io : faults) (id : string) : handler response :=
  db_read io;;
  lst ← dramas;
  match list_find (has_id id) lst with
  | None => mret (res_status_json 404 (Obj {[ "error" := Str "Not found" ]}))
  | Some (_, item) => mret (res_json (Obj item))
  end.

(** *** Create (protected) *)

(** [v?.trim()] *)
Definition optional_trim (v : value) : result value :=
  match v with
  | Undefined | Null => Ok Undefined
  | Str s => Ok (Str (trim s))
  | _ => Throw (TypeError "payload.title?.trim is not a function")
  end.

(** [Array.isArray(v) ? v : []] *)
Definition array_or_empty (v : value) : value :=
  if isArray v then v else Arr [].

(** The object literal of lines 115-132. *)
Definition new_item (id now : string) (payload : value) : result object :=
  title ← optional_trim (member payload "title");
  year ← ToNumber (member payload "year");
  rating ← ToNumber (member payload "rating");
  Ok (list_to_map [ ("id", Str id);
         ("title", or_else title (Str "Untitled"));
         ("original_title", or_else (member payload "original_title") (Str ""));
         ("year", or_else (Num year) Undefined);
         ("country", or_else (member payload "country") (Str "China"));
         ("genres", array_or_empty (member payload "genres"));
         ("status", or_else (member payload "status") (Str "Ongoing"));
         ("rating", or_else (Num rating) (Num (num_of_Z 0)));
         ("poster_url", or_else (member payload "poster_url") (Str ""));
         ("banner_url", or_else (member payload "banner_url") (Str ""));
         ("description", or_else (member payload "description") (Str ""));
         ("cast", array_or_empty (member payload "cast"));
         ("tags", array_or_empty (member payload "tags"));
         ("episodes", array_or_empty (member payload "episodes"));
         ("created_at", Str now);
         ("updated_at", Str now) ] : object).

Definition create_drama (io : faults) (e : env) (req : request)
  : handler response :=
  let now := now e 0 in
  let payload := or_else (body req) (Obj ∅) in
  let id := nanoid e 0 in
  item ← eval (new_item id now payload);
  db_read io;;
  lst ← dramas;
  set_dramas (item :: lst);;
  db_write io;;
  mret (res_status_json 201 (Obj item)).

(** *** Update (protected) *)

(** [{ ...existing, ...body, updated_at: now }] *)
Definition merge_update (existing : object) (body : value) (now : string)
  : object :=
  <["updated_at" := Str now]> (spread body ∪ existing).

Definition update_drama (io : faults) (e : env) (id : string) (req : request)
  : handler response :=
  db_read io;;
  lst ← dramas;
  match list_find (has_id id) lst with
  | None => mret (res_status_json 404 (Obj {[ "error" := Str "Not found" ]}))
  | Some (idx, existing) =>
      let now := now e 0 in
      let updated := merge_update existing (body req) now in
      set_dramas (<[idx := updated]> lst);;
      db_write io;;
      mret (res_json (Obj updated))
  end.

(** *** Delete (protected) *)

Definition delete_drama (io : faults) (id : string) : handler response :=
  db_read io;;
  lst ← dramas;
  let before := length lst in
  let kept := filter (λ d, negb (has_id id d)) lst in
  set_dramas kept;;
  db_write io;;
  mret (res_json (Obj {[ "ok" := Bool true;
                         "deleted" := Num (num_sub (num_of_nat before)
                                             (num_of_nat (length kept))) ]})).

(** *** Seed *)

Definition episode (n : Z) (title stream_url : string) : value :=
  Obj {[ "number" := Num (num_of_Z n);
         "title" := Str title;
         "stream_url" := Str stream_url;
         "subtitle_url" := Str "" ]}.

(** The callback of [Array.from] at index [i]: the [i]-th sample takes
    the [i]-th identifier and two readings of the clock. *)
Definition sample (e : env) (i : nat) : object :=
  list_to_map [ ("id", Str (nanoid e i));
     ("title", Str ("Sample C-Drama " +:+ NumberToString (num_of_nat (i + 1))));
     ("original_title", Str "");
     ("year", Num (num_of_Z 2024));
     ("country", Str "China");
     ("genres", Arr [Str "Romance"; Str "Historical"]);
     ("status", Str (if Nat.even i then "Ongoing" else "Completed"));
     ("rating", Num (Fin (82 # 10)));
     ("poster_url", Str "https://images.unsplash.com/photo-1520975682031-6ca0b2d0f33b?q=80&w=800&auto=format&fit=crop");
     ("banner_url", Str "https://images.unsplash.com/photo-1517816630740-0b93f606a0d4?q=80&w=1600&auto=format&fit=crop");
     ("description", Str "Lorem ipsum dolor sit amet, a short synopsis for sample content.");
     ("cast", Arr [Str "Lead A"; Str "Lead B"]);
     ("tags", Arr [Str "sub indo"; Str "1080p"]);
     ("episodes", Arr [episode 1 "Episode 1" "https://example.com/stream1";
                        episode 2 "Episode 2" "https://example.com/stream2"]);
     ("created_at", Str (now e (2 * i)));
     ("updated_at", Str (now e (2 * i + 1))) ].

(** [Array.from({ length: n }, f)]: the length goes through ToLength,
    an array of more than [2^32 - 1] elements cannot be made, and [f] is
    called on the indices in their order. *)
Definition Array_from {A} (n : num) (f : nat → A) : result (list A) :=
  let len := ToLength n in
  if (2 ^ 32 - 1 <? len)%Z then Throw (RangeError "Invalid array length")
  else Ok (f <$> seq 0 (Z.to_nat len)).

(** [f(...args)]: the elements of [args] become the arguments of one
    call, as many as the engine takes. *)
Definition spread_arguments {A} (e : env) (args : list A) : result (list A) :=
  if (max_arguments e <? Z.of_nat (length args))%Z
  then Throw (RangeError "Maximum call stack size exceeded")
  else Ok args.

Definition seed (io : faults) (e : env) (req : request) : handler response :=
  db_read io;;
  let count := param (query req) "count" (Num (num_of_Z 6)) in
  n ← eval (ToNumber count);
  samples ← eval (Array_from n (sample e));
  lst ← dramas;
  args ← eval (spread_arguments e samples);
  set_dramas (args ++ lst);;
  db_write io;;
  mret (res_json (Obj {[ "ok" := Bool true;
                         "added" := Num (num_of_nat (length samples)) ]})).

(** ** The application: each route with its middleware and handler. *)

Definition handle_with (io : faults) (cfg : config) (e : env) (req : request)
  : handler response :=
  match target req with
  | Root => get_root
  | ListDramas => list_dramas io req
  | DramaDetail id => drama_detail io id
  | CreateDrama => requireKey cfg req (create_drama io e req)
  | UpdateDrama id => requireKey cfg req (update_drama io e id req)
  | DeleteDrama id => requireKey cfg req (delete_drama io id)
  | Seed => requireKey cfg req (seed io e req)
  end.

(** The application on a store that does not fail. *)
Definition handle (cfg : config) (e : env) (req : request)
  : handler response :=
  handle_with reliable cfg e req.

End Server.

Import JS Server.

(** * Vocabulary of the properties *)

(** The routes that change the catalog: create, update, delete, seed. *)
Definition is_mutating (t : route) : bool :=
  match t with
  | CreateDrama | UpdateDrama _ | DeleteDrama _ | Seed => true
  | Root | ListDramas | DramaDetail _ => false
  end.

(** The request carries the configured secret in [x-api-key]. *)
Definition authorized (cfg : config) (req : request) : Prop :=
  headers req !! "x-api-key" = Some (API_KEY cfg).

Definition with_headers (h : gmap string string) (req : request) : request :=
  {| target := target req; headers := h; query := query req;
     body := body req |}.

(** [d.id] *)
Definition id_of (d : object) : value := get d "id".

#[export] Instance Str_inj : Inj (=) (=) Str.
Proof. by intros s t [= ->]. Qed.

(** Every record has an [id] distinct from every other record's. *)
Definition ids_unique (cat : list object) : Prop := NoDup (id_of <$> cat).

(** A record is in the form in which JSON text holds it; the records of
    [./data.json] are ([write_normal] and [handle_keeps_normal] below). *)
Definition normal (d : object) : Prop := json_object d = d.

#[export] Instance authorized_dec cfg req : Decision (authorized cfg req).
Proof. unfold authorized. apply _. Defined.

(** The first argument of [Array.from] in the seed route: how many
    samples the request asks for. *)
Definition seed_count (req : request) : result num :=
  ToNumber (param (query req) "count" (Num (num_of_Z 6))).

(** The samples a seed request puts in front of the catalog: those
    [Array.from] makes, which the spread then passes to [unshift]. *)
Definition seed_samples (e : env) (req : request) : result (list object) :=
  n ← seed_count req;
  samples ← Array_from n (sample e);
  spread_arguments e samples.

(** What the identifiers drawn while [req] is handled must satisfy for
    the catalog [cat] to keep its identifiers apart: those of [nanoid] are
    new and differ from each other, and an update payload leaves [id]
    alone. *)
Definition fresh_ids (e : env) (req : request) (cat : list object) : Prop :=
  match target req with
  | CreateDrama => Str (nanoid e 0) ∉ id_of <$> cat
  | Seed =>
      ∀ n, seed_count req = Ok n →
           NoDup (nanoid e <$> seq 0 (Z.to_nat (ToLength n))) ∧
           ∀ i, (i < Z.to_nat (ToLength n))%nat →
                Str (nanoid e i) ∉ id_of <$> cat
  | UpdateDrama _ => spread (body req) !! "id" = None
  | Root | ListDramas | DramaDetail _ | DeleteDrama _ => True
  end.

(** How the file after a request relates to the file before it, route by
    route. *)
Definition file_step (req : request) (before after : list object) : Prop :=
  match target req with
  | UpdateDrama _ => id_of <$> after = id_of <$> before
  | DeleteDrama id =>
      after = before ∨ after = filter (λ d, negb (has_id id d)) before
  | CreateDrama | Seed => ∃ new, after = (new ++ before)%list
  | Root | ListDramas | DramaDetail _ => after = before
  end.

(** The [year] of a record is absent or a number. *)
Definition year_plain (d : object) : Prop :=
  match get d "year" with
  | Undefined | Num _ => True
  | _ => False
  end.

(** The year a record is compared by when a missing year counts as
    [dflt]; [d.year || dflt] takes a year that is 0 or [NaN] as missing
    too. *)
Definition year_number (dflt : Z) (d : object) : num :=
  match get d "year" with
  | Num n => if truthy (Num n) then n else num_of_Z dflt
  | _ => num_of_Z dflt
  end.

(** [q] is a substring of [t]. *)
Definition substring (q t : string) : Prop :=
  ∃ pre post, t = pre +:+ q +:+ post.

(** The property [k] of the record is a text that contains [q] when case
    is ignored: the text in lower case has [q] in lower case as a
    substring, lower case being what [toLowerCase] gives. *)
Definition field_contains (d : object) (k q : string) : Prop :=
  ∃ t, get d k = Str t ∧ substring (toLowerCase q) (toLowerCase t).

Definition text_or_absent (v : value) : Prop :=
  match v with
  | Undefined | Null | Str _ => True
  | _ => False
  end.

(** [title] and [description] are strings where they are present. *)
Definition searchable (d : object) : Prop :=
  text_or_absent (get d "title") ∧ text_or_absent (get d "description").

(** The test of the search on one property and on a record, as a
    boolean. *)
Definition text_has (q : string) (v : value) : bool :=
  match v with
  | Str t => includes (toLowerCase t) (toLowerCase q)
  | _ => false
  end.

Definition search_hit (q : string) (d : object) : bool :=
  text_has q (get d "title") || text_has q (get d "description").

Definition unauthorized_response : response :=
  {| status := 401; sent := Obj {[ "error" := Str "Unauthorized" ]} |}.

Definition not_found_response : response :=
  {| status := 404; sent := Obj {[ "error" := Str "Not found" ]} |}.

(** ** Sample data *)

Module Sample.

Definition cfg : config := {| env_API_KEY := None |}.

Definition clock : env :=
  {| now := λ k, "2024-05-01T10:00:00.00" +:+ pretty k +:+ "Z";
     nanoid := λ k, "V1StGXR8_Z5" +:+ pretty k;
     max_arguments := 65535 |}.

Definition key_header : gmap string string :=
  {[ "x-api-key" := "supersecretkey" ]}.

Definition drama_a : object :=
  {[ "id" := Str "a"; "title" := Str "A"; "year" := Num (num_of_Z 2020);
     "updated_at" := Str "2024-04-30T08:00:00.000Z" ]}.

Definition drama_b : object :=
  {[ "id" := Str "b"; "title" := Str "B";
     "description" := Str "A palace intrigue" ]}.

Definition two_dramas : store :=
  {| file := [drama_a; drama_b]; data := []; log := [] |}.

(** A request on route [t] that carries the secret. *)
Definition keyed (t : route) (q : object) (b : value) : request :=
  {| target := t; headers := key_header; query := q; body := b |}.

(** A record last written at the instant [clock] reads first. *)
Definition drama_c : object :=
  {[ "id" := Str "c"; "title" := Str "C";
     "updated_at" := Str "2024-05-01T10:00:00.000Z" ]}.

Definition one_drama : store :=
  {| file := [drama_c]; data := []; log := [] |}.

(** Thirty records. *)
Definition thirty : list object :=
  (λ i, {[ "id" := Str (pretty i) ]}) <$> seq 0 30.

End Sample.

(** * Further vocabulary *)

(** The query of the list route on its own, lines 53-98: the parameters
    are destructured with their defaults, the filters, the sort and
    [paginate] run on a copy of the catalog. *)
Definition list_query (q : object) (lst : list object) : result page_result :=
  lst ← search_filter (param q "search" (Str "")) lst;
  lst ← genre_filter (get q "genre") lst;
  lst ← status_filter (get q "status") lst;
  lst ← min_year_filter (get q "min_year") lst;
  lst ← max_year_filter (get q "max_year") lst;
  lst ← sort_by (param q "sort" (Str "updated_at:desc")) lst;
  p ← ToNumber (param q "page" (Str "1"));
  l ← ToNumber (param q "limit" (Str "24"));
  Ok (paginate lst (Some p) (Some l)).

(** The store after a read that went through, after a read that failed,
    and after a write of [l] that failed or went through. *)
Definition after_read (st : store) : store :=
  {| file := file st; data := file st; log := log st ++ [Read] |}.
Definition after_read_failure (st : store) : store :=
  {| file := file st; data := data st; log := log st ++ [Read] |}.
Definition after_write_failure (st : store) (l : list object) : store :=
  {| file := file st; data := l; log := (log st ++ [Read]) ++ [Write] |}.
Definition after_write (st : store) (l : list object) : store :=
  {| file := json_object <$> l; data := l;
     log := (log st ++ [Read]) ++ [Write] |}.

(** A value that is not an object: [undefined], [null], a boolean, a
    number or a string. *)
Definition primitive (v : value) : Prop :=
  match v with
  | Arr _ | Obj _ => False
  | _ => True
  end.

(** The property names of the object literal of create. *)
Definition item_keys : list string :=
  [ "id"; "title"; "original_title"; "year"; "country"; "genres"; "status";
    "rating"; "poster_url"; "banner_url"; "description"; "cast"; "tags";
    "episodes"; "created_at"; "updated_at" ].

(** The decimal digits, and the strings made of them. *)
Definition is_digit (c : ascii) : bool :=
  ((48 <=? nat_of_ascii c) && (nat_of_ascii c <=? 57))%nat.

Fixpoint all_digits (s : string) : bool :=
  match s with
  | EmptyString => true
  | String c s' => is_digit c && all_digits s'
  end.

(** Every [db.write()] of the log comes straight after a [db.read()]. *)
(** [updated_at] is a string, and that string. *)
Definition stamped (d : object) : Prop :=
  match get d "updated_at" with Str _ => True | _ => False end.
Definition stamp (d : object) : string :=
  match get d "updated_at" with Str s => s | _ => "" end.

(** [genres] is missing (or another falsy value) or an array of
    strings, and the strings it holds. *)
Definition genres_plain (d : object) : Prop :=
  match get d "genres" with
  | Arr l => Forall (λ x, match x with Str _ => True | _ => False end) l
  | v => truthy v = false
  end.
Definition genres_of (d : object) : list string :=
  match get d "genres" with
  | Arr l => omap (λ x, match x with Str s => Some s | _ => None end) l
  | _ => []
  end.

(** [status] is missing (or another falsy value) or a string, and that
    string, empty when missing. *)
Definition status_plain (d : object) : Prop :=
  match get d "status" with
  | Str _ => True
  | v => truthy v = false
  end.
Definition status_of (d : object) : string :=
  match get d "status" with Str s => s | _ => "" end.

Module More.

(** Three records in the order of their last update. *)
Definition older : object :=
  {[ "id" := Str "o"; "updated_at" := Str "2024-01-01T00:00:00.000Z";
     "genres" := Arr [Str "Romance"; Str "Wuxia"];
     "status" := Str "Completed" ]}.
Definition middle : object :=
  {[ "id" := Str "m"; "updated_at" := Str "2024-02-01T00:00:00.000Z";
     "status" := Str "Ongoing" ]}.
Definition newer : object :=
  {[ "id" := Str "n"; "updated_at" := Str "2024-03-01T00:00:00.000Z";
     "genres" := Arr [Str "Historical"] ]}.

Definition shelf : store :=
  {| file := [middle; newer; older]; data := []; log := [] |}.

End More.

(** * Properties *)

(** ** The access gate *)

Section Gate.
Context (cfg : config) (req : request).

Lemma requireKey_pass next :
  authorized cfg req → requireKey cfg req next = next.
Proof.
  unfold authorized, requireKey, header. intros ->. simpl.
  by rewrite String.eqb_refl.
Qed.

Lemma requireKey_reject next st :
  ¬ authorized cfg req →
  requireKey cfg req next st = (Ok unauthorized_response, st).
Proof.
  unfold authorized, requireKey, header. intros Hkey.
  destruct (headers req !! "x-api-key") as [k|] eqn:Hk; simpl.
  - destruct (String.eqb_spec k (API_KEY cfg)) as [->|]; [done|].
    reflexivity.
  - reflexivity.
Qed.

End Gate.

(** C5. A mutating request whose [x-api-key] header is absent or is not
    the configured secret is answered 401 [{error: "Unauthorized"}] and
    leaves the store as it was: the file, [db.data] and the record of
    [db.read()]/[db.write()] calls are those of before. The answer to a
    request on a read route (list, detail, root) does not depend on the
    headers. *)
Theorem C5_unauthorized_mutation_rejected cfg e req st :
  (is_mutating (target req) = true → ¬ authorized cfg req →
     handle cfg e req st = (Ok unauthorized_response, st)) ∧
  (is_mutating (target req) = false →
     ∀ h, handle cfg e (with_headers h req) st = handle cfg e req st).
Proof.
  split.
  - intros Hm Hkey. unfold handle, handle_with.
    destruct (target req); try discriminate Hm;
      by apply requireKey_reject.
  - intros Hm h. unfold handle, handle_with, with_headers. simpl.
    destruct (target req); try discriminate Hm; reflexivity.
Qed.

Lemma C5_unauthorized_mutation_rejected_witness :
  let req := {| target := DeleteDrama "a"; headers := ∅; query := ∅;
                body := Undefined |} in
  handle Sample.cfg Sample.clock req Sample.two_dramas
  = (Ok unauthorized_response, Sample.two_dramas).
Proof.
  intros req.
  apply (proj1 (C5_unauthorized_mutation_rejected
                  Sample.cfg Sample.clock req Sample.two_dramas)).
  - reflexivity.
  - unfold authorized. simpl. discriminate.
Defined.

(** ** Arithmetic on integers *)

Lemma Qred_inject_Z z : Qred (inject_Z z) = inject_Z z.
Proof. apply Qred_identity. simpl. apply Z.gcd_1_r. Qed.

Lemma Qred_integer q z : (q == inject_Z z)%Q → Qred q = inject_Z z.
Proof. intros H. rewrite (Qred_complete _ _ H). apply Qred_inject_Z. Qed.

Lemma num_add_Z a b :
  num_add (num_of_Z a) (num_of_Z b) = num_of_Z (a + b).
Proof.
  unfold num_add, num_of_Z. f_equal. apply Qred_integer.
  unfold Qeq. simpl. lia.
Qed.

Lemma num_sub_Z a b :
  num_sub (num_of_Z a) (num_of_Z b) = num_of_Z (a - b).
Proof.
  unfold num_sub, num_of_Z. f_equal. apply Qred_integer.
  unfold Qeq. simpl. lia.
Qed.

Lemma num_mul_Z a b :
  num_mul (num_of_Z a) (num_of_Z b) = num_of_Z (a * b).
Proof.
  unfold num_mul, num_of_Z. f_equal. apply Qred_integer.
  unfold Qeq. simpl. lia.
Qed.

Lemma ToIntegerOrInfinity_Z z : ToIntegerOrInfinity (num_of_Z z) = EInt z.
Proof.
  unfold ToIntegerOrInfinity, num_of_Z, Qtrunc. f_equal.
  destruct (Qsign_neg _); [apply Qceiling_Z|apply Qfloor_Z].
Qed.

Lemma ToLength_Z z :
  (0 ≤ z ≤ 2 ^ 53 - 1)%Z → ToLength (num_of_Z z) = z.
Proof. intros Hz. unfold ToLength. rewrite ToIntegerOrInfinity_Z. lia. Qed.

(** ** Values and their JSON form *)

Lemma nodes_lookup (m : object) k v :
  m !! k = Some v → (nodes v ≤ map_fold (λ _ x acc, nodes x + acc) 0 m)%nat.
Proof.
  revert k v.
  induction m as [|i x m Hi Hfirst IH] using map_first_key_ind; intros k v.
  - by rewrite lookup_empty.
  - rewrite map_fold_insert_first_key by done.
    destruct (decide (i = k)) as [->|Hne].
    + rewrite lookup_insert_eq. intros [= ->]. lia.
    + rewrite lookup_insert_ne by done. intros Hk. apply IH in Hk. lia.
Qed.

Lemma nodes_elem (l : list value) v :
  v ∈ l → (nodes v ≤ list_sum (map nodes l))%nat.
Proof. induction 1; simpl; lia. Qed.

(** Induction on values, with the hypothesis available for the elements
    of an array and the properties of an object. *)
Lemma value_ind_nested (P : value → Prop) :
  P Undefined → P Null → (∀ b, P (Bool b)) → (∀ n, P (Num n)) →
  (∀ s, P (Str s)) →
  (∀ l, Forall P l → P (Arr l)) →
  (∀ m : object, map_Forall (λ _, P) m → P (Obj m)) →
  ∀ v, P v.
Proof.
  intros HU HN HB HNum HS HA HO v.
  remember (nodes v) as n eqn:Hn. revert v Hn.
  induction n as [n IH] using lt_wf_ind. intros v ->.
  destruct v; auto.
  - apply HA, Forall_forall. intros x Hx.
    apply (IH (nodes x)); [|done]. apply nodes_elem in Hx. simpl. lia.
  - apply HO. intros k x Hx.
    apply (IH (nodes x)); [|done]. apply nodes_lookup in Hx. simpl. lia.
Qed.

Lemma json_defined v : v ≠ Undefined → json v ≠ Undefined.
Proof. destruct v as [| | |[]| | |]; simpl; congruence. Qed.

Lemma json_Arr l : json (Arr l) = Arr (json_element <$> l).
Proof. reflexivity. Qed.

Lemma json_Obj m : json (Obj m) = Obj (json_object m).
Proof. reflexivity. Qed.

Lemma json_element_json y : y ≠ Undefined → json_element y = json y.
Proof. by destruct y. Qed.

Lemma json_property_json y : y ≠ Undefined → json_property y = Some (json y).
Proof. by destruct y. Qed.

Lemma json_element_idem x :
  json (json x) = json x → json_element (json_element x) = json_element x.
Proof.
  intros Hx.
  assert (x ≠ Undefined →
          json_element (json_element x) = json_element x) as Hne.
  { intros Hd. rewrite (json_element_json x) by done.
    by rewrite json_element_json by (by apply json_defined). }
  destruct x; [done|by apply Hne..].
Qed.

Lemma json_property_idem x :
  json (json x) = json x →
  json_property x ≫= json_property = json_property x.
Proof.
  intros Hx.
  assert (x ≠ Undefined →
          json_property x ≫= json_property = json_property x) as Hne.
  { intros Hd. rewrite (json_property_json x) by done. simpl.
    rewrite json_property_json by (by apply json_defined). by rewrite Hx. }
  destruct x; [done|by apply Hne..].
Qed.

Lemma json_idem v : json (json v) = json v.
Proof.
  induction v as [| | |n| |l IH|m IH] using value_ind_nested; try done.
  - by destruct n.
  - rewrite !json_Arr. f_equal. rewrite <- list_fmap_compose.
    apply Forall_fmap_ext. eapply Forall_impl; [exact IH|].
    intros x Hx. by apply json_element_idem.
  - rewrite !json_Obj. f_equal. apply map_eq. intros k.
    unfold json_object. rewrite !lookup_omap.
    destruct (m !! k) as [x|] eqn:Hk; [|done]. simpl.
    apply json_property_idem, (IH k x Hk).
Qed.

Lemma json_object_lookup (o : object) k :
  json_object o !! k = o !! k ≫= json_property.
Proof. unfold json_object. by rewrite lookup_omap. Qed.

Lemma json_object_idem o : json_object (json_object o) = json_object o.
Proof.
  pose proof (json_idem (Obj o)) as H. rewrite !json_Obj in H.
  by injection H.
Qed.

(** What [db.write()] puts in the file is in JSON form. *)
Lemma write_normal (l : list object) : Forall normal (json_object <$> l).
Proof.
  apply Forall_fmap, Forall_forall. intros d _. apply json_object_idem.
Qed.

Lemma normal_fmap (l : list object) :
  Forall normal l → json_object <$> l = l.
Proof.
  induction 1 as [|d l Hd _ IH]; [done|]. rewrite fmap_cons, IH.
  by rewrite Hd.
Qed.

Lemma normal_get_string (d : object) k s :
  get d k = Str s → get (json_object d) k = Str s.
Proof.
  unfold get. rewrite json_object_lookup.
  destruct (d !! k) as [x|]; simpl; [|done]. by intros ->.
Qed.

(** ** Running the handlers *)

Section Run.
Context (e : env).

Lemma update_drama_found id req st idx existing :
  list_find (has_id id) (file st) = Some (idx, existing) →
  update_drama reliable e id req st
  = (Ok (res_json (Obj (merge_update existing (body req) (now e 0)))),
     {| file := json_object
                  <$> <[idx := merge_update existing (body req) (now e 0)]>
                        (file st);
        data := <[idx := merge_update existing (body req) (now e 0)]>
                  (file st);
        log := (log st ++ [Read]) ++ [Write] |}).
Proof.
  intros Hfind. unfold update_drama, mbind, handler_bind, db_read, dramas.
  simpl. by rewrite Hfind.
Qed.

Lemma update_drama_missing id req st :
  list_find (has_id id) (file st) = None →
  update_drama reliable e id req st
  = (Ok not_found_response,
     {| file := file st; data := file st; log := log st ++ [Read] |}).
Proof.
  intros Hfind. unfold update_drama, mbind, handler_bind, db_read, dramas.
  simpl. by rewrite Hfind.
Qed.

Lemma create_drama_run req st :
  create_drama reliable e req st
  = match new_item (nanoid e 0) (now e 0) (or_else (body req) (Obj ∅)) with
    | Ok item =>
        (Ok (res_status_json 201 (Obj item)),
         {| file := json_object <$> item :: file st;
            data := item :: file st;
            log := (log st ++ [Read]) ++ [Write] |})
    | Throw err => (Throw err, st)
    end.
Proof.
  unfold create_drama, mbind, handler_bind, eval. by destruct (new_item _ _ _).
Qed.

Lemma delete_drama_run id st :
  delete_drama reliable id st
  = let kept := filter (λ d, negb (has_id id d)) (file st) in
    (Ok (res_json
           (Obj {[ "ok" := Bool true;
                   "deleted" := Num (num_sub (num_of_nat (length (file st)))
                                             (num_of_nat (length kept))) ]})),
     {| file := json_object <$> kept; data := kept;
        log := (log st ++ [Read]) ++ [Write] |}).
Proof. reflexivity. Qed.

Lemma seed_run req st :
  seed reliable e req st
  = match seed_samples e req with
    | Ok samples =>
        (Ok (res_json
               (Obj {[ "ok" := Bool true;
                       "added" := Num (num_of_nat (length samples)) ]})),
         {| file := json_object <$> (samples ++ file st);
            data := samples ++ file st;
            log := (log st ++ [Read]) ++ [Write] |})
    | Throw err =>
        (Throw err,
         {| file := file st; data := file st; log := log st ++ [Read] |})
    end.
Proof.
  unfold seed, seed_samples, seed_count, mbind, handler_bind, eval, db_read.
  simpl. destruct (ToNumber _) as [n|]; [|done]. simpl.
  destruct (Array_from n (sample e)) as [samples|]; [|done]. simpl.
  unfold spread_arguments.
  by destruct (max_arguments e <? Z.of_nat (length samples))%Z.
Qed.

(** The samples of a seed that goes through are those of the count. *)
Lemma seed_samples_Ok req samples :
  seed_samples e req = Ok samples →
  ∃ n, seed_count req = Ok n ∧
       samples = sample e <$> seq 0 (Z.to_nat (ToLength n)).
Proof.
  unfold seed_samples. destruct (seed_count req) as [n|]; [|done].
  cbn [mbind result_bind]. unfold Array_from.
  destruct (2 ^ 32 - 1 <? ToLength n)%Z; [done|].
  cbn [mbind result_bind]. unfold spread_arguments.
  destruct (max_arguments e <? _)%Z; [done|]. intros [= <-]. by exists n.
Qed.

(** A count that is the number of a natural [N], no greater than
    [2^32 - 1] nor than what one call takes, gives the first [N]
    samples. *)
Lemma seed_samples_nat req (N : nat) :
  seed_count req = Ok (num_of_nat N) →
  (Z.of_nat N ≤ 2 ^ 32 - 1)%Z → (Z.of_nat N ≤ max_arguments e)%Z →
  seed_samples e req = Ok (sample e <$> seq 0 N).
Proof.
  intros Hcount H32 Hargs. unfold seed_samples. rewrite Hcount.
  cbn [mbind result_bind]. unfold Array_from, num_of_nat.
  assert (2 ^ 32 - 1 < 2 ^ 53 - 1)%Z by reflexivity.
  rewrite ToLength_Z by lia.
  destruct (Z.ltb_spec (2 ^ 32 - 1) (Z.of_nat N)) as [|_]; [lia|].
  rewrite Nat2Z.id. cbn [mbind result_bind]. unfold spread_arguments.
  rewrite length_fmap, length_seq.
  by destruct (Z.ltb_spec (max_arguments e) (Z.of_nat N)) as [|_]; [lia|].
Qed.

Lemma drama_detail_run id st :
  drama_detail reliable id st
  = (Ok match list_find (has_id id) (file st) with
        | None => not_found_response
        | Some (_, item) => res_json (Obj item)
        end,
     {| file := file st; data := file st; log := log st ++ [Read] |}).
Proof.
  unfold drama_detail, mbind, handler_bind, db_read, dramas. simpl.
  by destruct (list_find _ _) as [[]|].
Qed.

(** The list route reads the store and writes nothing. *)
Lemma list_dramas_store req st :
  snd (list_dramas reliable req st)
  = {| file := file st; data := file st; log := log st ++ [Read] |}.
Proof.
  unfold list_dramas, mbind, handler_bind, eval, db_read, dramas. simpl.
  repeat match goal with
         | |- context [match ?r with Ok _ => _ | Throw _ => _ end] =>
             destruct r; simpl
         end; reflexivity.
Qed.

Lemma sample_normal i : normal (sample e i).
Proof. reflexivity. Qed.

Lemma sample_id i : id_of (sample e i) = Str (nanoid e i).
Proof. reflexivity. Qed.

End Run.

(** ** Update *)

Lemma merge_update_stamp existing body now :
  merge_update existing body now !! "updated_at" = Some (Str now).
Proof. unfold merge_update. apply lookup_insert_eq. Qed.

Lemma merge_update_payload existing body now k v :
  k ≠ "updated_at" → spread body !! k = Some v →
  merge_update existing body now !! k = Some v.
Proof.
  intros Hk Hv. unfold merge_update.
  rewrite lookup_insert_ne by done. by apply lookup_union_Some_l.
Qed.

Lemma merge_update_kept existing body now k :
  k ≠ "updated_at" → spread body !! k = None →
  merge_update existing body now !! k = existing !! k.
Proof.
  intros Hk Hv. unfold merge_update.
  rewrite lookup_insert_ne by done. by apply lookup_union_r.
Qed.

(** C10. When an update finds its record, the [updated_at] of the record
    it answers with and of the record it stores is the reading of the
    server clock, whatever the payload holds under [updated_at]; a
    payload's [id] and [created_at], in contrast, go into the record. *)
Theorem C10_updated_at_not_settable cfg e req st id idx existing :
  target req = UpdateDrama id → authorized cfg req →
  list_find (has_id id) (file st) = Some (idx, existing) →
  ∃ updated st',
    handle cfg e req st
    = (Ok {| status := 200; sent := Obj (json_object updated) |}, st') ∧
    file st' !! idx = Some (json_object updated) ∧
    json_object updated !! "updated_at" = Some (Str (now e 0)) ∧
    (∀ v, spread (body req) !! "id" = Some v → updated !! "id" = Some v) ∧
    (∀ v, spread (body req) !! "created_at" = Some v →
          updated !! "created_at" = Some v).
Proof.
  intros Ht Hkey Hfind.
  eexists (merge_update existing (body req) (now e 0)), _.
  unfold handle, handle_with. rewrite Ht, (requireKey_pass _ _ _ Hkey).
  rewrite (update_drama_found _ _ _ _ _ _ Hfind). split; [reflexivity|].
  simpl. apply list_find_Some in Hfind as (Hidx & _ & _).
  apply lookup_lt_Some in Hidx. repeat split.
  - rewrite list_lookup_fmap, list_lookup_insert_eq by done. done.
  - by rewrite json_object_lookup, merge_update_stamp.
  - intros v Hv. by apply merge_update_payload.
  - intros v Hv. by apply merge_update_payload.
Qed.

Lemma C10_updated_at_not_settable_witness :
  let req := Sample.keyed (UpdateDrama "a") ∅
               (Obj {[ "updated_at" := Str "1999-01-01T00:00:00.000Z" ]}) in
  ∃ updated st',
    handle Sample.cfg Sample.clock req Sample.two_dramas
    = (Ok {| status := 200; sent := Obj (json_object updated) |}, st') ∧
    file st' !! 0 = Some (json_object updated) ∧
    json_object updated !! "updated_at"
    = Some (Str "2024-05-01T10:00:00.000Z") ∧
    (∀ v, spread (body req) !! "id" = Some v → updated !! "id" = Some v) ∧
    (∀ v, spread (body req) !! "created_at" = Some v →
          updated !! "created_at" = Some v).
Proof.
  intros req.
  exact (C10_updated_at_not_settable Sample.cfg Sample.clock req
           Sample.two_dramas "a" 0 Sample.drama_a
           eq_refl eq_refl eq_refl).
Defined.

(** C1, as stated, fails on a payload that names [updated_at] and on a
    clock that has not advanced: the record [drama_c] was written at
    10:00:00.000, the update arrives within the same millisecond with
    [{updated_at: "1999-..."}]. The answer carries neither the payload's
    value nor a later instant than the one stored. *)
Lemma C1_payload_updated_at_discarded :
  let payload := Obj {[ "updated_at" := Str "1999-01-01T00:00:00.000Z" ]} in
  let req := Sample.keyed (UpdateDrama "c") ∅ payload in
  ∃ updated st',
    handle Sample.cfg Sample.clock req Sample.one_drama
    = (Ok {| status := 200; sent := Obj updated |}, st') ∧
    file st' = [updated] ∧
    spread payload !! "updated_at" = Some (Str "1999-01-01T00:00:00.000Z") ∧
    updated !! "updated_at" ≠ Some (Str "1999-01-01T00:00:00.000Z") ∧
    updated !! "updated_at" = Sample.drama_c !! "updated_at" ∧
    ¬ (∃ old new, Sample.drama_c !! "updated_at" = Some (Str old) ∧
                  updated !! "updated_at" = Some (Str new) ∧
                  String.ltb old new = true).
Proof.
  intros payload req.
  exists Sample.drama_c, {| file := [Sample.drama_c];
                            data := [Sample.drama_c];
                            log := [Read; Write] |}.
  split; [reflexivity|]. split; [done|]. split; [done|].
  split; [discriminate|]. split; [done|].
  intros (old & new & Ho & Hn & Hlt).
  vm_compute in Ho, Hn. injection Ho as <-. injection Hn as <-.
  by vm_compute in Hlt.
Qed.

(** C1 (amended). When an update finds its record, the record it answers
    with and stores is the shallow merge of the payload over the existing
    record: every key of the payload other than [updated_at] takes the
    payload's value ([id] included), every key absent from the payload
    other than [updated_at] keeps its value, and [updated_at] is the
    reading of the server clock, so it is strictly later than the stored
    one whenever that reading is. Updating [{title: "A", year: 2020}] with
    [{year: 2021}] gives [{title: "A", year: 2021}] and the new
    [updated_at]. *)
Theorem C1_update_shallow_merge cfg e req st id idx existing :
  target req = UpdateDrama id → authorized cfg req →
  list_find (has_id id) (file st) = Some (idx, existing) →
  ∃ updated st',
    handle cfg e req st
    = (Ok {| status := 200; sent := Obj (json_object updated) |}, st') ∧
    file st' = json_object <$> <[idx := updated]> (file st) ∧
    (∀ k v, k ≠ "updated_at" → spread (body req) !! k = Some v →
            updated !! k = Some v) ∧
    (∀ k, k ≠ "updated_at" → spread (body req) !! k = None →
          updated !! k = existing !! k) ∧
    updated !! "updated_at" = Some (Str (now e 0)) ∧
    (∀ old, existing !! "updated_at" = Some (Str old) →
            String.ltb old (now e 0) = true →
            ∃ new, updated !! "updated_at" = Some (Str new) ∧
                   String.ltb old new = true) ∧
    (∀ t, merge_update {[ "title" := Str "A"; "year" := Num (num_of_Z 2020) ]}
            (Obj {[ "year" := Num (num_of_Z 2021) ]}) t
          = {[ "title" := Str "A"; "year" := Num (num_of_Z 2021);
               "updated_at" := Str t ]}).
Proof.
  intros Ht Hkey Hfind.
  eexists (merge_update existing (body req) (now e 0)), _.
  unfold handle, handle_with. rewrite Ht, (requireKey_pass _ _ _ Hkey).
  rewrite (update_drama_found _ _ _ _ _ _ Hfind). split; [reflexivity|].
  simpl. split_and!.
  - reflexivity.
  - intros k v. apply merge_update_payload.
  - intros k. apply merge_update_kept.
  - apply merge_update_stamp.
  - intros old _ Hlt. exists (now e 0). split; [apply merge_update_stamp|done].
  - intros t. reflexivity.
Qed.

Lemma C1_update_shallow_merge_witness :
  let req := Sample.keyed (UpdateDrama "a") ∅
               (Obj {[ "year" := Num (num_of_Z 2021) ]}) in
  ∃ updated st',
    handle Sample.cfg Sample.clock req Sample.two_dramas
    = (Ok {| status := 200; sent := Obj (json_object updated) |}, st') ∧
    file st' = json_object <$> <[0 := updated]> (file Sample.two_dramas) ∧
    (∀ k v, k ≠ "updated_at" → spread (body req) !! k = Some v →
            updated !! k = Some v) ∧
    (∀ k, k ≠ "updated_at" → spread (body req) !! k = None →
          updated !! k = Sample.drama_a !! k) ∧
    updated !! "updated_at" = Some (Str "2024-05-01T10:00:00.000Z") ∧
    (∀ old, Sample.drama_a !! "updated_at" = Some (Str old) →
            String.ltb old "2024-05-01T10:00:00.000Z" = true →
            ∃ new, updated !! "updated_at" = Some (Str new) ∧
                   String.ltb old new = true) ∧
    (∀ t, merge_update {[ "title" := Str "A"; "year" := Num (num_of_Z 2020) ]}
            (Obj {[ "year" := Num (num_of_Z 2021) ]}) t
          = {[ "title" := Str "A"; "year" := Num (num_of_Z 2021);
               "updated_at" := Str t ]}).
Proof.
  intros req.
  exact (C1_update_shallow_merge Sample.cfg Sample.clock req
           Sample.two_dramas "a" 0 Sample.drama_a
           eq_refl eq_refl eq_refl).
Defined.

(** ** Identifiers *)

(** From the outcome of a run to the store it leaves. *)
Ltac store_of H :=
  apply (f_equal snd) in H; cbn [snd] in H; subst.

Lemma normal_id_kept (existing updated : object) :
  normal existing → updated !! "id" = existing !! "id" →
  id_of (json_object updated) = id_of existing.
Proof.
  unfold normal, id_of, get. intros Hn Hid.
  rewrite json_object_lookup, Hid, <- json_object_lookup. by rewrite Hn.
Qed.

(** C2, as stated, fails on update: a payload that names [id] replaces
    the identifier of the record, here with the one of its neighbour. *)
Lemma C2_update_overwrites_id :
  let req := Sample.keyed (UpdateDrama "a") ∅ (Obj {[ "id" := Str "b" ]}) in
  ∃ resp st',
    handle Sample.cfg Sample.clock req Sample.two_dramas = (Ok resp, st') ∧
    ids_unique (file Sample.two_dramas) ∧
    id_of <$> file Sample.two_dramas = [Str "a"; Str "b"] ∧
    id_of <$> file st' = [Str "b"; Str "b"] ∧
    ¬ ids_unique (file st').
Proof.
  intros req.
  change (handle Sample.cfg Sample.clock req Sample.two_dramas)
    with (requireKey Sample.cfg req (update_drama reliable Sample.clock "a" req)
            Sample.two_dramas).
  rewrite requireKey_pass by reflexivity.
  rewrite (update_drama_found _ "a" _ _ 0 Sample.drama_a) by reflexivity.
  eexists _, _. split; [reflexivity|]. simpl file.
  assert (id_of <$> [Sample.drama_a; Sample.drama_b] = [Str "a"; Str "b"])
    as Ha by reflexivity.
  assert (id_of <$> (json_object <$>
            <[0 := merge_update Sample.drama_a (body req)
                     (now Sample.clock 0)]> [Sample.drama_a; Sample.drama_b])
          = [Str "b"; Str "b"]) as Hb by reflexivity.
  split_and!.
  - unfold ids_unique. rewrite Ha.
    apply NoDup_cons. split; [|apply NoDup_singleton].
    intros [=]%list_elem_of_singleton.
  - exact Ha.
  - exact Hb.
  - intros Hnd. assert (NoDup [Str "b"; Str "b"]) as Hbb by exact Hnd.
    apply NoDup_cons in Hbb as [Hin _]. apply Hin. by left.
Qed.

Lemma NoDup_fmap_filter {A B} (f : A → B) (P : A → Prop)
    `{!∀ x, Decision (P x)} (l : list A) :
  NoDup (f <$> l) → NoDup (f <$> filter P l).
Proof.
  induction l as [|x l IH]; [done|].
  rewrite fmap_cons, NoDup_cons. intros [Hx Hl]. rewrite filter_cons.
  destruct (decide (P x)); [|by apply IH].
  rewrite fmap_cons, NoDup_cons. split; [|by apply IH].
  intros (y & Hy & [_ Hin]%list_elem_of_filter)%list_elem_of_fmap.
  apply Hx, list_elem_of_fmap. eauto.
Qed.

Lemma Forall_normal_filter (P : object → Prop) `{!∀ x, Decision (P x)} l :
  Forall normal l → Forall normal (filter P l).
Proof.
  rewrite !Forall_forall. intros Hl d [_ Hd]%list_elem_of_filter. by apply Hl.
Qed.

Lemma result_bind_Ok {A B} (f : A → result B) (r : result A) b :
  r ≫= f = Ok b → ∃ a, r = Ok a ∧ f a = Ok b.
Proof. destruct r as [a|err]; [by exists a|intros [=]]. Qed.

Lemma new_item_id id now payload item :
  new_item id now payload = Ok item → id_of item = Str id.
Proof.
  unfold new_item. intros H.
  apply result_bind_Ok in H as (title & _ & H).
  apply result_bind_Ok in H as (year & _ & H).
  apply result_bind_Ok in H as (rating & _ & H).
  injection H as <-. reflexivity.
Qed.

Lemma samples_ids e n :
  id_of <$> (sample e <$> seq 0 n) = Str <$> (nanoid e <$> seq 0 n).
Proof.
  rewrite <- !list_fmap_compose. apply list_fmap_ext. intros _ i _.
  apply sample_id.
Qed.

Lemma samples_normal e n : Forall normal (sample e <$> seq 0 n).
Proof. apply Forall_fmap, Forall_forall. intros i _. apply sample_normal. Qed.

(** The records of the file stay in JSON form. *)
Lemma handle_keeps_normal cfg e req st :
  Forall normal (file st) → Forall normal (file (snd (handle cfg e req st))).
Proof.
  intros Hn. unfold handle, handle_with.
  destruct (target req) as [| |id| |id|id|]; try done.
  - by rewrite list_dramas_store.
  - by rewrite drama_detail_run.
  - destruct (decide (authorized cfg req)) as [Hk|Hk];
      [rewrite requireKey_pass by done|by rewrite requireKey_reject].
    rewrite create_drama_run. destruct (new_item _ _ _); [|done].
    apply write_normal.
  - destruct (decide (authorized cfg req)) as [Hk|Hk];
      [rewrite requireKey_pass by done|by rewrite requireKey_reject].
    destruct (list_find (has_id id) (file st)) as [[idx existing]|] eqn:Hf.
    + rewrite (update_drama_found _ _ _ _ _ _ Hf). apply write_normal.
    + by rewrite (update_drama_missing _ _ _ _ Hf).
  - destruct (decide (authorized cfg req)) as [Hk|Hk];
      [rewrite requireKey_pass by done|by rewrite requireKey_reject].
    rewrite delete_drama_run. apply write_normal.
  - destruct (decide (authorized cfg req)) as [Hk|Hk];
      [rewrite requireKey_pass by done|by rewrite requireKey_reject].
    rewrite seed_run. destruct (seed_samples e req); [|done].
    apply write_normal.
Qed.

Lemma startup_normal on_disk : Forall normal (file (startup on_disk)).
Proof. apply write_normal. Qed.

(** C2 (amended). Distinctness of the [id]s of the stored records is kept
    by delete and by the read routes; by create and seed when the
    identifiers [nanoid] returns are new to the catalog and differ from
    each other; and by update when the payload has no [id] key. Under
    these conditions no request changes the [id] of a stored record:
    update leaves the sequence of [id]s as it was, delete keeps the
    records that do not match, create and seed put records in front of the
    stored ones. *)
Theorem C2_ids_unique_preserved cfg e req st out st' :
  Forall normal (file st) → ids_unique (file st) →
  fresh_ids e req (file st) →
  handle cfg e req st = (out, st') →
  ids_unique (file st') ∧ file_step req (file st) (file st').
Proof.
  intros Hn Hu Hfresh. unfold handle, handle_with, fresh_ids, file_step in *.
  destruct (target req) as [| |id| |id|id|] eqn:Ht.
  - by intros [= _ <-].
  - intros Hrun. apply (f_equal snd) in Hrun.
    rewrite list_dramas_store in Hrun. simpl in Hrun. by subst st'.
  - rewrite drama_detail_run. by intros [= _ <-].
  - destruct (decide (authorized cfg req)) as [Hk|Hk];
      [rewrite requireKey_pass by done
      |rewrite requireKey_reject by done; intros [= _ <-];
       split; [done|by exists []]].
    rewrite create_drama_run.
    destruct (new_item _ _ _) as [item|err] eqn:Hitem;
      intros Hrun; store_of Hrun; cbn [file]; [|split; [done|by exists []]].
    rewrite fmap_cons, (normal_fmap _ Hn).
    split; [|by exists [json_object item]].
    unfold ids_unique. rewrite fmap_cons. apply NoDup_cons. split; [|done].
    apply new_item_id in Hitem.
    unfold id_of in *. by rewrite (normal_get_string _ _ _ Hitem).
  - destruct (decide (authorized cfg req)) as [Hk|Hk];
      [rewrite requireKey_pass by done
      |rewrite requireKey_reject by done; by intros [= _ <-]].
    destruct (list_find (has_id id) (file st)) as [[idx existing]|] eqn:Hf.
    + rewrite (update_drama_found _ _ _ _ _ _ Hf). intros Hrun. store_of Hrun. cbn [file].
      apply list_find_Some in Hf as (Hidx & _ & _).
      assert (id_of <$> (json_object <$>
                <[idx := merge_update existing (body req) (now e 0)]>
                  (file st))
              = id_of <$> file st) as Hids.
      { rewrite !list_fmap_insert, (normal_fmap _ Hn).
        apply list_insert_id. rewrite list_lookup_fmap, Hidx. simpl.
        f_equal. symmetry. apply normal_id_kept.
        - eapply Forall_lookup_1 in Hn; eauto.
        - by apply merge_update_kept. }
      unfold ids_unique. by rewrite Hids.
    + rewrite (update_drama_missing _ _ _ _ Hf). by intros [= _ <-].
  - destruct (decide (authorized cfg req)) as [Hk|Hk];
      [rewrite requireKey_pass by done
      |rewrite requireKey_reject by done; intros [= _ <-]].
    + rewrite delete_drama_run. intros Hrun. store_of Hrun. cbn [file].
      rewrite normal_fmap by (by apply Forall_normal_filter).
      split; [|by right]. by apply NoDup_fmap_filter.
    + split; [done|by left].
  - destruct (decide (authorized cfg req)) as [Hk|Hk];
      [rewrite requireKey_pass by done
      |rewrite requireKey_reject by done; intros [= _ <-];
       split; [done|by exists []]].
    rewrite seed_run.
    destruct (seed_samples e req) as [samples|err] eqn:Hn';
      intros Hrun; store_of Hrun; cbn [file]; [|split; [done|by exists []]].
    apply seed_samples_Ok in Hn' as (n & Hn' & ->).
    destruct (Hfresh n Hn') as [Hnd Hnew].
    rewrite normal_fmap by (apply Forall_app; auto using samples_normal).
    split; [|by eexists].
    unfold ids_unique. rewrite fmap_app, samples_ids.
    apply NoDup_app. split_and!; [by apply (NoDup_fmap_2 Str)|..|exact Hu].
    intros x (s & -> & (i & -> & Hi)%list_elem_of_fmap)%list_elem_of_fmap.
    apply Hnew. apply elem_of_seq in Hi. lia.
Qed.

Lemma two_dramas_normal : Forall normal (file Sample.two_dramas).
Proof. repeat constructor. Qed.

Lemma two_dramas_unique : ids_unique (file Sample.two_dramas).
Proof.
  unfold ids_unique.
  change (id_of <$> file Sample.two_dramas) with [Str "a"; Str "b"].
  apply NoDup_cons. split; [|apply NoDup_singleton].
  intros [=]%list_elem_of_singleton.
Qed.

Lemma C2_ids_unique_preserved_witness :
  let req := Sample.keyed CreateDrama ∅ (Obj {[ "title" := Str "New" ]}) in
  let run := handle Sample.cfg Sample.clock req Sample.two_dramas in
  ids_unique (file (snd run)) ∧
  file_step req (file Sample.two_dramas) (file (snd run)).
Proof.
  intros req run.
  apply (C2_ids_unique_preserved Sample.cfg Sample.clock req
           Sample.two_dramas (fst run) (snd run)).
  - exact two_dramas_normal.
  - exact two_dramas_unique.
  - unfold fresh_ids. simpl.
    change (id_of <$> [Sample.drama_a; Sample.drama_b])
      with [Str "a"; Str "b"].
    intros Hin. apply elem_of_cons in Hin as [[=]|Hin].
    apply elem_of_cons in Hin as [[=]|Hin]. by apply elem_of_nil in Hin.
  - apply surjective_pairing.
Defined.

(** ** Delete *)

Lemma negb_has_id_filter id (l : list object) :
  filter (λ d, negb (has_id id d)) l = filter (λ d, ¬ has_id id d) l.
Proof. apply list_filter_iff. intros d. apply negb_True. Qed.

Lemma filter_split_length {A} (P : A → Prop) `{!∀ x, Decision (P x)} l :
  length l = length (filter P l) + length (filter (λ x, ¬ P x) l).
Proof.
  rewrite <- length_app. apply Permutation_length. symmetry.
  apply filter_app_complement.
Qed.

(** With distinct [id]s at most one record answers to a given [id]. *)
Lemma unique_id_once id (l : list object) :
  ids_unique l → length (filter (λ d, has_id id d) l) ≤ 1.
Proof.
  unfold ids_unique. induction l as [|x l IH]; [simpl; lia|].
  rewrite fmap_cons, NoDup_cons. intros [Hx Hl]. rewrite filter_cons.
  destruct (decide (has_id id x)) as [Hid|]; [|by apply IH].
  destruct (filter (λ d, has_id id d) l) as [|y k] eqn:Hf; [simpl; lia|].
  exfalso. apply Hx.
  assert (y ∈ filter (λ d, has_id id d) l) as [Hy Hin]%list_elem_of_filter
    by (rewrite Hf; left).
  apply list_elem_of_fmap. exists y. split; [|done].
  unfold has_id, strict_eq_str, id_of in *.
  destruct (get x "id"); try done. destruct (get y "id"); try done.
  apply Is_true_true, String.eqb_eq in Hid, Hy. congruence.
Qed.

Lemma detail_after_delete id (l : list object) :
  list_find (has_id id) (filter (λ d, negb (has_id id d)) l) = None.
Proof.
  apply list_find_None, Forall_forall.
  intros d [Hd _]%list_elem_of_filter. by apply negb_True.
Qed.

(** C8. In a catalog with distinct [id]s, delete for [id] keeps in the
    file exactly the records whose [id] is not [id], answers
    [{ok: true, deleted: d}] where [d], the number of records removed, is
    0 or 1, and is 0 precisely when no record has that [id]; it answers so
    whether or not the [id] is present. A detail request for [id] on the
    store it leaves is answered 404 [{error: "Not found"}]. *)
Theorem C8_delete_removes_matching cfg e req st id :
  target req = DeleteDrama id → authorized cfg req →
  Forall normal (file st) → ids_unique (file st) →
  ∃ d st',
    handle cfg e req st
    = (Ok {| status := 200;
             sent := Obj {[ "ok" := Bool true;
                            "deleted" := Num (num_of_nat d) ]} |}, st') ∧
    file st' = filter (λ r, negb (has_id id r)) (file st) ∧
    length (file st) = length (file st') + d ∧
    (d = 0 ∨ d = 1) ∧
    (d = 0 ↔ ∀ r, r ∈ file st → has_id id r = false) ∧
    ∀ req', target req' = DramaDetail id →
            fst (handle cfg e req' st') = Ok not_found_response.
Proof.
  intros Ht Hkey Hn Hu.
  set (kept := filter (λ r, negb (has_id id r)) (file st)).
  set (gone := filter (λ r, has_id id r) (file st)).
  assert (length (file st) = length kept + length gone) as Hlen.
  { subst kept gone. rewrite negb_has_id_filter.
    rewrite (filter_split_length (λ r, has_id id r) (file st)). lia. }
  pose proof (unique_id_once id (file st) Hu) as Hone. fold gone in Hone.
  exists (length gone). eexists.
  unfold handle, handle_with. rewrite Ht, (requireKey_pass _ _ _ Hkey), delete_drama_run.
  fold kept. cbn zeta. split_and!.
  - unfold num_of_nat. rewrite num_sub_Z.
    replace (Z.of_nat (length (file st)) - Z.of_nat (length kept))%Z
      with (Z.of_nat (length gone)) by lia.
    reflexivity.
  - cbn [file]. apply normal_fmap. by apply Forall_normal_filter.
  - cbn [file]. rewrite normal_fmap by (by apply Forall_normal_filter). lia.
  - lia.
  - split.
    + intros H0 r Hr. destruct (has_id id r) eqn:Hid; [|done].
      assert (r ∈ gone) as Hin
        by (apply list_elem_of_filter; split; [by rewrite Hid|done]).
      destruct gone; [by apply elem_of_nil in Hin|discriminate H0].
    + intros Hnone. destruct gone as [|r k] eqn:Hg; [done|]. exfalso.
      assert (r ∈ gone) as [Hid Hin]%list_elem_of_filter
        by (rewrite Hg; left).
      by rewrite (Hnone r Hin) in Hid.
  - intros req' Ht'. unfold handle, handle_with. rewrite Ht', drama_detail_run.
    cbn [fst file data]. subst kept.
    rewrite normal_fmap by (by apply Forall_normal_filter).
    by rewrite detail_after_delete.
Qed.

Lemma C8_delete_removes_matching_witness :
  let req := Sample.keyed (DeleteDrama "a") ∅ Undefined in
  ∃ d st',
    handle Sample.cfg Sample.clock req Sample.two_dramas
    = (Ok {| status := 200;
             sent := Obj {[ "ok" := Bool true;
                            "deleted" := Num (num_of_nat d) ]} |}, st') ∧
    file st' = filter (λ r, negb (has_id "a" r)) (file Sample.two_dramas) ∧
    length (file Sample.two_dramas) = length (file st') + d ∧
    (d = 0 ∨ d = 1) ∧
    (d = 0 ↔ ∀ r, r ∈ file Sample.two_dramas → has_id "a" r = false) ∧
    ∀ req', target req' = DramaDetail "a" →
            fst (handle Sample.cfg Sample.clock req' st')
            = Ok not_found_response.
Proof.
  intros req.
  exact (C8_delete_removes_matching Sample.cfg Sample.clock req
           Sample.two_dramas "a" eq_refl eq_refl
           two_dramas_normal two_dramas_unique).
Defined.

(** ** Seed *)

(** C9, as stated, fails on a count that is a number but not a count of
    records: with [count=-1] the route adds nothing and answers
    [added: 0], not [added: -1]. *)
Lemma C9_negative_count_adds_none :
  let req := Sample.keyed Seed {[ "count" := Str "-1" ]} Undefined in
  seed_count req = Ok (num_of_Z (-1)) ∧
  ∃ st',
    handle Sample.cfg Sample.clock req Sample.two_dramas
    = (Ok {| status := 200;
             sent := Obj {[ "ok" := Bool true;
                            "added" := Num (num_of_Z 0) ]} |}, st') ∧
    file st' = file Sample.two_dramas ∧
    Num (num_of_Z 0) ≠ Num (num_of_Z (-1)).
Proof.
  intros req. split; [reflexivity|].
  exists {| file := file Sample.two_dramas; data := file Sample.two_dramas;
            log := [Read; Write] |}.
  split_and!; [reflexivity|reflexivity|discriminate].
Qed.

(** Above either limit seed throws after its read and writes nothing. *)
Lemma seed_throws_above_limits e req st (N : nat) :
  seed_count req = Ok (num_of_nat N) →
  (2 ^ 32 - 1 < Z.of_nat N ∨ max_arguments e < Z.of_nat N)%Z →
  ∃ msg,
    seed reliable e req st
    = (Throw (RangeError msg),
       {| file := file st; data := file st; log := log st ++ [Read] |}).
Proof.
  intros Hcount Hbig. rewrite seed_run. unfold seed_samples. rewrite Hcount.
  cbn [mbind result_bind]. unfold Array_from, ToLength, num_of_nat.
  rewrite ToIntegerOrInfinity_Z.
  assert (2 ^ 32 - 1 < 2 ^ 53 - 1)%Z by reflexivity.
  destruct (Z.ltb_spec (2 ^ 32 - 1)
              (Z.min (Z.max (Z.of_nat N) 0) (2 ^ 53 - 1))) as [|Hsmall];
    [by eexists|].
  cbn [mbind result_bind]. unfold spread_arguments.
  rewrite length_fmap, length_seq.
  assert (Z.min (Z.max (Z.of_nat N) 0) (2 ^ 53 - 1) = Z.of_nat N) as ->
    by lia.
  rewrite Nat2Z.id.
  destruct (Z.ltb_spec (max_arguments e) (Z.of_nat N)) as [|]; [|lia].
  by eexists.
Qed.

(** C9 (amended). When the count of the request is the number of a
    natural [N] that is at most [2^32 - 1] and at most the number of
    arguments the engine takes in one call, seed puts [N] new records in
    front of the stored ones, which stay as they were and in their order,
    and answers [{ok: true, added: N}]. The [i]-th new record carries the
    [i]-th identifier [nanoid] returned, so the new [id]s are distinct and
    new to the catalog when those identifiers are. A request without
    [count] is one with count 6. For a natural count above either limit the
    route throws a RangeError and the file stays as it was. *)
Theorem C9_seed_prepends cfg e req st (N : nat) :
  target req = Seed → authorized cfg req → Forall normal (file st) →
  seed_count req = Ok (num_of_nat N) →
  (Z.of_nat N ≤ 2 ^ 32 - 1)%Z → (Z.of_nat N ≤ max_arguments e)%Z →
  (∃ new st',
     handle cfg e req st
     = (Ok {| status := 200;
              sent := Obj {[ "ok" := Bool true;
                             "added" := Num (num_of_nat N) ]} |}, st') ∧
     file st' = new ++ file st ∧
     length new = N ∧
     id_of <$> new = Str <$> (nanoid e <$> seq 0 N) ∧
     (NoDup (nanoid e <$> seq 0 N) →
      (∀ i, i < N → Str (nanoid e i) ∉ id_of <$> file st) →
      NoDup (id_of <$> new) ∧
      ∀ x, x ∈ id_of <$> new → x ∉ id_of <$> file st)) ∧
  (∀ req0, query req0 !! "count" = None →
           seed_count req0 = Ok (num_of_nat 6)) ∧
  (∀ req1 (M : nat),
     target req1 = Seed → authorized cfg req1 →
     seed_count req1 = Ok (num_of_nat M) →
     (2 ^ 32 - 1 < Z.of_nat M ∨ max_arguments e < Z.of_nat M)%Z →
     ∃ msg st1,
       handle cfg e req1 st = (Throw (RangeError msg), st1) ∧
       file st1 = file st).
Proof.
  intros Ht Hkey Hn Hcount H32 Hargs. split_and!.
  - exists (sample e <$> seq 0 N). eexists.
    unfold handle, handle_with.
    rewrite Ht, (requireKey_pass _ _ _ Hkey), seed_run.
    rewrite (seed_samples_nat _ _ _ Hcount H32 Hargs). split_and!.
    + by rewrite length_fmap, length_seq.
    + cbn [file]. apply normal_fmap, Forall_app. auto using samples_normal.
    + by rewrite length_fmap, length_seq.
    + apply samples_ids.
    + intros Hnd Hnew. rewrite samples_ids. split.
      * by apply (NoDup_fmap_2 Str).
      * intros x (s0 & -> & (i & -> & Hi)%list_elem_of_fmap)%list_elem_of_fmap.
        apply Hnew. apply elem_of_seq in Hi. lia.
  - intros req0 Hq. unfold seed_count, param, get. by rewrite Hq.
  - intros req1 M Ht1 Hkey1 Hcount1 Hbig.
    destruct (seed_throws_above_limits e req1 st M Hcount1 Hbig)
      as (msg & Hrun).
    exists msg. eexists. unfold handle, handle_with.
    rewrite Ht1, (requireKey_pass _ _ _ Hkey1), Hrun. done.
Qed.

Lemma C9_seed_prepends_witness :
  let req := Sample.keyed Seed {[ "count" := Str "3" ]} Undefined in
  (∃ new st',
     handle Sample.cfg Sample.clock req Sample.two_dramas
     = (Ok {| status := 200;
              sent := Obj {[ "ok" := Bool true;
                             "added" := Num (num_of_nat 3) ]} |}, st') ∧
     file st' = new ++ file Sample.two_dramas ∧
     length new = 3 ∧
     id_of <$> new = Str <$> (nanoid Sample.clock <$> seq 0 3) ∧
     (NoDup (nanoid Sample.clock <$> seq 0 3) →
      (∀ i, i < 3 →
            Str (nanoid Sample.clock i) ∉ id_of <$> file Sample.two_dramas) →
      NoDup (id_of <$> new) ∧
      ∀ x, x ∈ id_of <$> new → x ∉ id_of <$> file Sample.two_dramas)) ∧
  (∀ req0, query req0 !! "count" = None →
           seed_count req0 = Ok (num_of_nat 6)) ∧
  (∀ req1 (M : nat),
     target req1 = Seed → authorized Sample.cfg req1 →
     seed_count req1 = Ok (num_of_nat M) →
     (2 ^ 32 - 1 < Z.of_nat M ∨ max_arguments Sample.clock < Z.of_nat M)%Z →
     ∃ msg st1,
       handle Sample.cfg Sample.clock req1 Sample.two_dramas
       = (Throw (RangeError msg), st1) ∧
       file st1 = file Sample.two_dramas).
Proof.
  intros req.
  apply (C9_seed_prepends Sample.cfg Sample.clock req Sample.two_dramas 3
           eq_refl eq_refl two_dramas_normal eq_refl); simpl; lia.
Defined.

(** ** Year bounds *)

(** A callback that answers a boolean on every element filters like the
    boolean. *)
Lemma filter_r_bool {A} (p : A → result value) (f : A → bool) (l : list A) :
  Forall (λ x, p x = Ok (Bool (f x))) l → filter_r p l = Ok (filter f l).
Proof.
  induction 1 as [|x l Hx _ IH]; [done|].
  rewrite filter_cons. cbn [filter_r]. rewrite Hx, IH.
  by destruct (f x).
Qed.

Lemma year_or_number dflt d :
  year_plain d →
  ToNumber (or_else (get d "year") (Num (num_of_Z dflt)))
  = Ok (year_number dflt d).
Proof.
  unfold year_plain, year_number, or_else.
  destruct (get d "year") as [| | |n| | |]; try done.
  by destruct (truthy (Num n)).
Qed.

Lemma min_year_matches_plain bound m d :
  ToNumber bound = Ok m → year_plain d →
  min_year_matches bound d = Ok (Bool (num_ge (year_number 0 d) m)).
Proof.
  intros Hm Hd. unfold min_year_matches, ge_num.
  by rewrite Hm, (year_or_number 0 d Hd).
Qed.

Lemma max_year_matches_plain bound m d :
  ToNumber bound = Ok m → year_plain d →
  max_year_matches bound d = Ok (Bool (num_le (year_number 9999 d) m)).
Proof.
  intros Hm Hd. unfold max_year_matches, le_num.
  by rewrite Hm, (year_or_number 9999 d Hd).
Qed.

(** C3, as stated, fails on [min_year]: the record [drama_b] has no
    [year], is compared as year 0, and [0 >= 2000] is false, so
    [min_year=2000] leaves it out (as [max_year=2000] does). *)
Lemma C3_absent_year_fails_min_year :
  get Sample.drama_b "year" = Undefined ∧
  min_year_filter (Str "2000") [Sample.drama_b] = Ok [] ∧
  min_year_filter (Str "2000") (file Sample.two_dramas)
  = Ok [Sample.drama_a].
Proof. split_and!; reflexivity. Qed.

(** C3 (amended). With a [min_year] or [max_year] given, and the years of
    the catalog absent or numbers, the list keeps the records whose year
    is at least [min_year], respectively at most [max_year], bounds
    included, where a record with no [year] counts as year 0 for
    [min_year] and as year 9999 for [max_year]. A record with no [year]
    therefore passes [min_year] only when the bound is at most 0, and
    fails a [max_year] below 9999: it is left out under [min_year=2000]
    and under [max_year=2000]. A filter that is not given keeps every
    record. *)
Theorem C3_year_bounds (lst : list object) (bound : value) (m : num) :
  truthy bound = true → ToNumber bound = Ok m → Forall year_plain lst →
  min_year_filter bound lst
  = Ok (filter (λ d, num_ge (year_number 0 d) m) lst) ∧
  max_year_filter bound lst
  = Ok (filter (λ d, num_le (year_number 9999 d) m) lst) ∧
  (∀ d, get d "year" = Undefined →
        year_number 0 d = num_of_Z 0 ∧ year_number 9999 d = num_of_Z 9999) ∧
  (∀ d y, get d "year" = Num (num_of_Z y) → y ≠ 0%Z →
          num_ge (year_number 0 d) (num_of_Z y) = true ∧
          num_le (year_number 9999 d) (num_of_Z y) = true) ∧
  (∀ d, get d "year" = Undefined →
        min_year_filter (Str "2000") [d] = Ok [] ∧
        max_year_filter (Str "2000") [d] = Ok [] ∧
        min_year_filter (Str "0") [d] = Ok [d] ∧
        max_year_filter (Str "9999") [d] = Ok [d]) ∧
  min_year_filter Undefined lst = Ok lst ∧
  max_year_filter Undefined lst = Ok lst.
Proof.
  intros Ht Hm Hplain. unfold min_year_filter, max_year_filter.
  rewrite Ht. cbn [truthy]. split_and!; try done.
  - apply filter_r_bool. eapply Forall_impl; [exact Hplain|].
    intros d Hd. by apply min_year_matches_plain.
  - apply filter_r_bool. eapply Forall_impl; [exact Hplain|].
    intros d Hd. by apply max_year_matches_plain.
  - intros d Hd. unfold year_number. by rewrite Hd.
  - intros d y Hd Hy. unfold year_number. rewrite Hd.
    assert (truthy (Num (num_of_Z y)) = true) as ->.
    { cbn. unfold Qis_zero. cbn. by destruct (Z.eqb_spec y 0). }
    unfold num_ge, num_le, num_lt, num_of_Z.
    assert (Qle_bool (inject_Z y) (inject_Z y) = true) as ->; [|done].
    apply Qle_bool_iff, Qle_refl.
  - intros d Hd. cbn [truthy String.eqb negb].
    assert (year_plain d) as Hp by (unfold year_plain; by rewrite Hd).
    assert (year_number 0 d = num_of_Z 0 ∧
            year_number 9999 d = num_of_Z 9999) as [H0 H9]
      by (unfold year_number; by rewrite Hd).
    cbn [filter_r].
    rewrite (min_year_matches_plain (Str "2000") (num_of_Z 2000) d eq_refl Hp).
    rewrite (max_year_matches_plain (Str "2000") (num_of_Z 2000) d eq_refl Hp).
    rewrite (min_year_matches_plain (Str "0") (num_of_Z 0) d eq_refl Hp).
    rewrite (max_year_matches_plain (Str "9999") (num_of_Z 9999) d eq_refl Hp).
    rewrite H0, H9. split_and!; reflexivity.
Qed.

Lemma C3_year_bounds_witness :
  let lst := file Sample.two_dramas in
  min_year_filter (Str "2000") lst
  = Ok (filter (λ d, num_ge (year_number 0 d) (num_of_Z 2000)) lst) ∧
  max_year_filter (Str "2000") lst
  = Ok (filter (λ d, num_le (year_number 9999 d) (num_of_Z 2000)) lst).
Proof.
  intros lst.
  destruct (C3_year_bounds lst (Str "2000") (num_of_Z 2000)) as (H1 & H2 & _).
  - reflexivity.
  - reflexivity.
  - repeat constructor.
  - split; assumption.
Defined.

(** ** Pagination *)

Lemma slice_window {A} (l : list A) (a b : Z) :
  (0 ≤ a ≤ b)%Z →
  slice l (num_of_Z a) (num_of_Z b)
  = take (Z.to_nat (b - a)) (drop (Z.to_nat a) l).
Proof.
  intros Hab. unfold slice, rel_index. rewrite !ToIntegerOrInfinity_Z.
  destruct (Z.ltb_spec a 0), (Z.ltb_spec b 0); try lia.
  destruct (Z.le_gt_cases (Z.of_nat (length l)) a) as [Hge|Hlt].
  - rewrite !drop_ge by lia. by rewrite !take_nil.
  - replace (Z.to_nat (Z.min a (Z.of_nat (length l)))) with (Z.to_nat a)
      by lia.
    destruct (Z.le_gt_cases b (Z.of_nat (length l))).
    + f_equal. lia.
    + rewrite !take_ge; [done|rewrite length_drop; lia..].
Qed.

Lemma Math_ceil_div (n : nat) (L : Z) :
  (1 ≤ L)%Z →
  ∃ c, Math_ceil (num_div (num_of_nat n) (num_of_Z L)) = num_of_Z c ∧
       ((c - 1) * L < Z.of_nat n ≤ c * L)%Z.
Proof.
  intros HL. destruct L as [|pl|]; try lia.
  exists (- (- Z.of_nat n / Z.pos pl))%Z. split.
  - unfold num_div, num_of_nat, num_of_Z, Math_ceil.
    change (Qis_zero (inject_Z (Z.pos pl))) with false. cbv iota.
    rewrite (Qceiling_comp _ _ (Qred_correct _)).
    unfold Qceiling, Qfloor, Qdiv, Qmult, Qinv, Qopp. cbn.
    by rewrite Z.mul_1_r, Pos.mul_1_l.
  - pose proof (Z.div_mod (- Z.of_nat n) (Z.pos pl)) as Hdm.
    pose proof (Z.mod_pos_bound (- Z.of_nat n) (Z.pos pl)) as Hb. nia.
Qed.

(** C6, as stated, fails on a page below 1: under [page=-1] and
    [limit=24] the bounds of [slice] are -48 and -24, which count from
    the end of the array, so the thirty records yield their first six
    where the claim has an empty page. *)
Lemma C6_negative_page_returns_items :
  let pg := paginate Sample.thirty (Some (num_of_Z (-1)))
              (Some (num_of_Z 24)) in
  ToNumber (Str "-1") = Ok (num_of_Z (-1)) ∧
  items pg = take 6 Sample.thirty ∧
  length (items pg) = 6 ∧
  items pg ≠ [].
Proof. split_and!; [reflexivity..|discriminate]. Qed.

(** C6 (amended). For whole numbers [page >= 1] and [limit >= 1],
    [paginate] returns the items at the indices from [(page-1)*limit] up
    to, not including, [page*limit]; [total] is the length of the list it
    is given and [pages] the least whole number with
    [pages * limit >= total]; a page past the end has no items. Left
    out, [page] is 1 and [limit] is 24, in [paginate] and in the query
    of the list route. Of thirty records under [limit=24], page 1 has
    24 with [pages = 2], page 2 the other 6 and page 3 none. *)
Theorem C6_paginate_window (lst : list object) (p L : Z) :
  (1 ≤ p)%Z → (1 ≤ L)%Z →
  let pg := paginate lst (Some (num_of_Z p)) (Some (num_of_Z L)) in
  let start := Z.to_nat ((p - 1) * L) in
  items pg = take (Z.to_nat L) (drop start lst) ∧
  (∀ i, i < Z.to_nat L → items pg !! i = lst !! (start + i)) ∧
  length (items pg) ≤ Z.to_nat L ∧
  total pg = length lst ∧
  (∃ c, pages pg = num_of_Z c ∧
        ((c - 1) * L < Z.of_nat (length lst) ≤ c * L)%Z) ∧
  (length lst ≤ start → items pg = []) ∧
  paginate lst None None
  = paginate lst (Some (num_of_Z 1)) (Some (num_of_Z 24)) ∧
  (∀ q : object, q !! "page" = None → q !! "limit" = None →
     ToNumber (param q "page" (Str "1")) = Ok (num_of_Z 1) ∧
     ToNumber (param q "limit" (Str "24")) = Ok (num_of_Z 24)) ∧
  (length lst = 30 →
     let pg_n n := paginate lst (Some (num_of_Z n)) (Some (num_of_Z 24)) in
     items (pg_n 1%Z) = take 24 lst ∧ length (items (pg_n 1%Z)) = 24 ∧
     pages (pg_n 1%Z) = num_of_Z 2 ∧
     items (pg_n 2%Z) = drop 24 lst ∧ length (items (pg_n 2%Z)) = 6 ∧
     items (pg_n 3%Z) = []).
Proof.
  intros Hp HL pg start.
  assert (items pg = take (Z.to_nat L) (drop start lst)) as Hitems.
  { subst pg start. unfold paginate. cbn [items from_option id].
    rewrite num_sub_Z, num_mul_Z, num_add_Z, slice_window by nia.
    f_equal. lia. }
  split_and!.
  - exact Hitems.
  - intros i Hi. by rewrite Hitems, lookup_take_lt, lookup_drop.
  - rewrite Hitems, length_take. lia.
  - reflexivity.
  - apply Math_ceil_div, HL.
  - intros Hlen. by rewrite Hitems, drop_ge, take_nil.
  - reflexivity.
  - intros q Hpage Hlimit. unfold param, get. by rewrite Hpage, Hlimit.
  - intros H30 pg_n. subst pg_n. unfold paginate.
    cbn [items pages from_option id].
    rewrite !num_sub_Z, !num_mul_Z, !num_add_Z, !slice_window by lia.
    cbn [Z.sub Z.mul Z.add Z.to_nat Z.opp Z.pos_sub Pos.to_nat
         Pos.iter_op Pos.mul Pos.add Pos.succ Pos.pred_double Init.Nat.add].
    rewrite H30. split_and!.
    + by rewrite drop_0.
    + rewrite drop_0, length_take. lia.
    + reflexivity.
    + apply take_ge. rewrite length_drop. lia.
    + rewrite length_take, length_drop. lia.
    + by rewrite drop_ge, take_nil by lia.
Qed.

Lemma C6_paginate_window_witness :
  items (paginate Sample.thirty (Some (num_of_Z 2)) (Some (num_of_Z 24)))
  = take 24 (drop 24 Sample.thirty).
Proof.
  apply (proj1 (C6_paginate_window Sample.thirty 2 24 ltac:(lia) ltac:(lia))).
Defined.

(** ** Search *)

Lemma append_String c a b : String c a +:+ b = String c (a +:+ b).
Proof. reflexivity. Qed.

Lemma append_empty b : "" +:+ b = b.
Proof. reflexivity. Qed.

Lemma prefix_app q s :
  String.prefix q s = true ↔ ∃ post, s = q +:+ post.
Proof.
  revert s. induction q as [|c q IH]; intros [|c' s]; simpl.
  - split; [by exists ""|done].
  - split; [by exists (String c' s)|done].
  - split; [done|by intros [? [=]]].
  - destruct (Ascii.ascii_dec c c') as [->|Hne].
    + rewrite IH. split; intros [post Hp]; exists post.
      * by rewrite append_String, Hp.
      * rewrite append_String in Hp. by injection Hp.
    + split; [done|]. intros [post Hp]. rewrite append_String in Hp.
      by injection Hp as Hc _.
Qed.

Lemma includes_app s q :
  includes s q = true ↔ ∃ pre post, s = pre +:+ q +:+ post.
Proof.
  induction s as [|c s IH]; cbn [includes].
  - destruct (String.prefix q "") eqn:Hp.
    + apply prefix_app in Hp as [post Hp]. split; [|done].
      intros _. by exists "", post.
    + split; [done|]. intros (pre & post & Hs).
      destruct pre; [|by rewrite append_String in Hs].
      rewrite append_empty in Hs.
      assert (String.prefix q "" = true) as Ht
        by (apply prefix_app; eauto). congruence.
  - destruct (String.prefix q (String c s)) eqn:Hp.
    + apply prefix_app in Hp as [post Hp]. split; [|done].
      intros _. by exists "", post.
    + rewrite IH. split.
      * intros (pre & post & ->). by exists (String c pre), post.
      * intros (pre & post & Hs). destruct pre as [|c' pre].
        -- rewrite append_empty in Hs.
           assert (String.prefix q (String c s) = true) as Ht
             by (apply prefix_app; eauto). congruence.
        -- rewrite append_String in Hs. injection Hs as -> ->. eauto.
Qed.

Lemma text_has_field q d k :
  text_has q (get d k) = true ↔ field_contains d k q.
Proof.
  unfold text_has, field_contains. split.
  - destruct (get d k) as [| | | |t| |]; try done.
    intros Hin. exists t. split; [done|]. by apply includes_app.
  - intros (t & -> & Hin). by apply includes_app.
Qed.

Lemma search_matches_text s d :
  searchable d →
  search_matches (toLowerCase s) d = Ok (Bool (search_hit s d))
  ∨ (search_hit s d = false ∧
     search_matches (toLowerCase s) d = Ok Undefined).
Proof.
  unfold searchable, search_matches, search_hit, lower_includes, text_has.
  intros [Ht Hd].
  destruct (get d "title") as [| | | |t| |]; try done;
    destruct (get d "description") as [| | | |t'| |]; try done; cbn;
    try (by right); try (by left).
  - destruct (includes (toLowerCase t) (toLowerCase s)); cbn; auto.
  - destruct (includes (toLowerCase t) (toLowerCase s)); cbn; auto.
  - destruct (includes (toLowerCase t) (toLowerCase s)); cbn; auto.
Qed.

Lemma search_filter_text s (l : list object) :
  Forall searchable l →
  filter_r (search_matches (toLowerCase s)) l = Ok (filter (search_hit s) l).
Proof.
  induction 1 as [|d l Hd _ IH]; [done|].
  rewrite filter_cons. cbn [filter_r]. rewrite IH.
  destruct (search_matches_text s d Hd) as [->|[Hhit ->]].
  - by destruct (search_hit s d).
  - by rewrite Hhit.
Qed.

(** C7, as stated, fails on a catalog that holds a title which is not a
    string. After [PUT /api/dramas/b] with [{title: 5}] the record [b]
    still has the description "A palace intrigue", yet a search for
    "palace" ends in a TypeError at [d.title?.toLowerCase()] and retains
    no record. *)
Lemma C7_search_throws_on_number_title :
  let put := Sample.keyed (UpdateDrama "b") ∅
               (Obj {[ "title" := Num (num_of_Z 5) ]}) in
  let st1 := snd (handle Sample.cfg Sample.clock put Sample.two_dramas) in
  let search := {| target := ListDramas; headers := ∅;
                   query := {[ "search" := Str "palace" ]};
                   body := Undefined |} in
  (∃ d, file st1 !! 1 = Some d ∧ get d "title" = Num (num_of_Z 5) ∧
        field_contains d "description" "palace") ∧
  search_filter (Str "palace") (file st1)
  = Throw (TypeError "toLowerCase is not a function") ∧
  fst (handle Sample.cfg Sample.clock search st1)
  = Throw (TypeError "toLowerCase is not a function").
Proof.
  intros put st1 search. split_and!.
  - eexists. split_and!; [reflexivity|reflexivity|].
    apply text_has_field. reflexivity.
  - reflexivity.
  - reflexivity.
Qed.

(** C7 (amended). In a catalog whose titles and descriptions are strings
    where they are present, the search for a non-empty string [s] keeps,
    in their order, exactly the records whose [title] or [description],
    put in lower case, has [s] put in lower case as a substring; an empty
    or absent search keeps every record. *)
Theorem C7_search_filter (lst : list object) (s : string) :
  Forall searchable lst →
  ∃ out,
    search_filter (Str s) lst = Ok out ∧
    (s ≠ "" → out = filter (search_hit s) lst) ∧
    (s ≠ "" → ∀ d, d ∈ out ↔
               d ∈ lst ∧ (field_contains d "title" s ∨
                          field_contains d "description" s)) ∧
    (s = "" → out = lst) ∧
    ∀ q : object, q !! "search" = None →
                  search_filter (param q "search" (Str "")) lst = Ok lst.
Proof.
  intros Hl. unfold search_filter. cbn [truthy ToString mbind result_bind].
  destruct (String.eqb_spec s "") as [->|Hs]; cbn [negb].
  - exists lst. split_and!; try done.
    intros q Hq. unfold param, get. by rewrite Hq.
  - exists (filter (search_hit s) lst). split_and!; try done.
    + by apply search_filter_text.
    + intros _ d. rewrite list_elem_of_filter. unfold search_hit.
      rewrite <- !text_has_field.
      destruct (text_has s (get d "title")),
               (text_has s (get d "description")); cbn;
        intuition discriminate.
    + intros q Hq. unfold param, get. by rewrite Hq.
Qed.

Lemma C7_search_filter_witness :
  ∃ out,
    search_filter (Str "PALACE") (file Sample.two_dramas) = Ok out ∧
    out = filter (search_hit "PALACE") (file Sample.two_dramas) ∧
    out = [Sample.drama_b].
Proof.
  destruct (C7_search_filter (file Sample.two_dramas) "PALACE")
    as (out & Hrun & Hout & _).
  - repeat constructor.
  - exists out. split_and!; [exact Hrun|by apply Hout|].
    rewrite Hout by done. reflexivity.
Defined.

(** ** Create *)

(** C4 fails on the code: a payload whose [title] is a number is not
    normalized. [payload.title?.trim()] guards only against a missing
    title, the call of [trim] on the number 123 throws a TypeError before
    the store is read, and no record is created. *)
Theorem C4_create_throws_on_number_title :
  let req := Sample.keyed CreateDrama ∅
               (Obj {[ "title" := Num (num_of_Z 123) ]}) in
  handle Sample.cfg Sample.clock req Sample.two_dramas
  = (Throw (TypeError "payload.title?.trim is not a function"),
     Sample.two_dramas).
Proof. reflexivity. Qed.

(** The conversion of [year] throws in the same way on an object with a
    [toString] property, which JSON cannot make callable. *)
Lemma create_throws_on_year_object :
  let req := Sample.keyed CreateDrama ∅
               (Obj {[ "year" := Obj {[ "toString" := Null ]} ]}) in
  handle Sample.cfg Sample.clock req Sample.two_dramas
  = (Throw (TypeError "Cannot convert object to primitive value"),
     Sample.two_dramas).
Proof. reflexivity. Qed.

Lemma optional_trim_text v :
  text_or_absent v →
  ∃ t, optional_trim v = Ok t ∧
       or_else t (Str "Untitled")
       = match v with
         | Str s => if String.eqb (trim s) "" then Str "Untitled"
                    else Str (trim s)
         | _ => Str "Untitled"
         end.
Proof.
  destruct v as [| | | |s| |]; try done; intros _; eexists;
    (split; [reflexivity|]); try reflexivity.
  unfold or_else. cbn [truthy]. by destruct (String.eqb (trim s) "").
Qed.

(** What create does where it does not throw: the title is text or
    missing and [year] and [rating] convert. The record then has the
    trimmed title or "Untitled", no [year] after serialization when the
    year converts to [NaN], rating 0 when the rating converts to 0 or
    [NaN], an empty array for each list property that is not an array,
    and one instant for [created_at] and [updated_at]. *)
Lemma new_item_normalizes id now payload year rating :
  text_or_absent (member payload "title") →
  ToNumber (member payload "year") = Ok year →
  ToNumber (member payload "rating") = Ok rating →
  ∃ item,
    new_item id now payload = Ok item ∧
    get item "id" = Str id ∧
    get item "title"
    = match member payload "title" with
      | Str t => if String.eqb (trim t) "" then Str "Untitled"
                 else Str (trim t)
      | _ => Str "Untitled"
      end ∧
    (year = NaN → json_object item !! "year" = None) ∧
    (truthy (Num rating) = false → get item "rating" = Num (num_of_Z 0)) ∧
    (∀ k, k ∈ ["genres"; "cast"; "tags"; "episodes"] →
          get item k = array_or_empty (member payload k)) ∧
    get item "created_at" = Str now ∧
    get item "updated_at" = Str now.
Proof.
  intros Htitle Hyear Hrating. unfold new_item. rewrite Hyear, Hrating.
  destruct (optional_trim_text _ Htitle) as (t & -> & Hor).
  cbn [mbind result_bind]. eexists. split; [reflexivity|]. split_and!.
  - reflexivity.
  - rewrite <- Hor. reflexivity.
  - intros ->. rewrite json_object_lookup. reflexivity.
  - intros Hr.
    change (or_else (Num rating) (Num (num_of_Z 0)) = Num (num_of_Z 0)).
    unfold or_else. by rewrite Hr.
  - intros k Hk.
    repeat (apply elem_of_cons in Hk as [->|Hk]; [reflexivity|]).
    by apply elem_of_nil in Hk.
  - reflexivity.
  - reflexivity.
Qed.

(** * Further properties *)

(** ** Reads, lookups after writes *)

(** X1. The routes registered without [requireKey] (root, list, detail)
    never write: whatever the request and however it ends, the file holds
    what it held and [db.write()] is not called. *)
Theorem X1_read_routes_never_write cfg e req st :
  is_mutating (target req) = false →
  file (snd (handle cfg e req st)) = file st ∧
  (log (snd (handle cfg e req st)) = log st ∨
   log (snd (handle cfg e req st)) = log st ++ [Read]).
Proof.
  intros Hm. unfold handle, handle_with. destruct (target req); try discriminate Hm.
  - split; [done|by left].
  - rewrite list_dramas_store. split; [done|by right].
  - rewrite drama_detail_run. split; [done|by right].
Qed.

Lemma X1_read_routes_never_write_witness :
  let req := {| target := ListDramas; headers := ∅;
                query := {[ "search" := Str "palace" ]};
                body := Undefined |} in
  file (snd (handle Sample.cfg Sample.clock req Sample.two_dramas))
  = file Sample.two_dramas ∧
  (log (snd (handle Sample.cfg Sample.clock req Sample.two_dramas))
   = log Sample.two_dramas ∨
   log (snd (handle Sample.cfg Sample.clock req Sample.two_dramas))
   = log Sample.two_dramas ++ [Read]).
Proof.
  intros req.
  exact (X1_read_routes_never_write Sample.cfg Sample.clock req
           Sample.two_dramas eq_refl).
Defined.

Lemma has_id_json id (d : object) : has_id id (json_object d) = has_id id d.
Proof.
  unfold has_id, get. rewrite json_object_lookup.
  destruct (d !! "id") as [[| | |[]| | |]|]; reflexivity.
Qed.

(** X2. An update for an [id] that no stored record has is answered 404
    [{error: "Not found"}]; the store is read and not written, and the
    file is left as it was. *)
Theorem X2_update_missing_is_404 cfg e req st id :
  target req = UpdateDrama id → authorized cfg req →
  Forall (λ d, has_id id d = false) (file st) →
  handle cfg e req st
  = (Ok not_found_response,
     {| file := file st; data := file st; log := log st ++ [Read] |}).
Proof.
  intros Ht Hkey Hnone. unfold handle, handle_with.
  rewrite Ht, (requireKey_pass _ _ _ Hkey). apply update_drama_missing.
  apply list_find_None. eapply Forall_impl; [exact Hnone|].
  intros d Hd Hid. by rewrite Hd in Hid.
Qed.

Lemma X2_update_missing_is_404_witness :
  let req := Sample.keyed (UpdateDrama "zzz") ∅
               (Obj {[ "title" := Str "T" ]}) in
  handle Sample.cfg Sample.clock req Sample.two_dramas
  = (Ok not_found_response,
     {| file := file Sample.two_dramas; data := file Sample.two_dramas;
        log := log Sample.two_dramas ++ [Read] |}).
Proof.
  intros req.
  apply (X2_update_missing_is_404 Sample.cfg Sample.clock req
           Sample.two_dramas "zzz"); [reflexivity|reflexivity|].
  repeat constructor.
Defined.

(** X3. Create then detail: when create answers, a detail request for
    the identifier [nanoid] gave finds the new record, whatever the
    catalog already held, and answers 200 with the body create answered
    201 with. *)
Theorem X3_create_then_detail cfg e e' req req' st resp st' :
  target req = CreateDrama → authorized cfg req →
  handle cfg e req st = (Ok resp, st') →
  target req' = DramaDetail (nanoid e 0) →
  status resp = 201 ∧
  fst (handle cfg e' req' st') = Ok {| status := 200; sent := sent resp |}.
Proof.
  intros Ht Hkey Hrun Ht'. unfold handle, handle_with in *.
  rewrite Ht, (requireKey_pass _ _ _ Hkey), create_drama_run in Hrun.
  rewrite Ht', drama_detail_run.
  destruct (new_item _ _ _) as [item|err] eqn:Hitem; [|discriminate Hrun].
  pose proof (f_equal snd Hrun) as Hst. apply (f_equal fst) in Hrun.
  cbn [fst snd] in Hrun, Hst. subst st'. injection Hrun as <-.
  split; [reflexivity|]. cbn [fst file data].
  rewrite fmap_cons. cbn [list_find].
  apply new_item_id in Hitem. unfold id_of in Hitem.
  assert (has_id (nanoid e 0) (json_object item) = true) as Hhas.
  { rewrite has_id_json. unfold has_id. rewrite Hitem. apply String.eqb_refl. }
  rewrite decide_True by (by rewrite Hhas).
  unfold res_json, res_status_json. by rewrite !json_Obj, json_object_idem.
Qed.

Lemma X3_create_then_detail_witness :
  let req := Sample.keyed CreateDrama ∅ (Obj {[ "title" := Str " New " ]}) in
  let run := handle Sample.cfg Sample.clock req Sample.two_dramas in
  let req' := {| target := DramaDetail (nanoid Sample.clock 0);
                 headers := ∅; query := ∅; body := Undefined |} in
  ∃ resp, fst run = Ok resp ∧ status resp = 201 ∧
    fst (handle Sample.cfg Sample.clock req' (snd run))
    = Ok {| status := 200; sent := sent resp |}.
Proof.
  intros req run req'. eexists. split; [reflexivity|].
  eapply (X3_create_then_detail Sample.cfg Sample.clock Sample.clock req req'
            Sample.two_dramas _ (snd run)); reflexivity.
Defined.

(** X4. Update then detail: when the payload has no [id] key, a detail
    request for the [id] finds the record the update wrote and answers
    with the very response the update gave. *)
Theorem X4_update_then_detail cfg e e' req req' st id idx existing :
  target req = UpdateDrama id → authorized cfg req →
  list_find (has_id id) (file st) = Some (idx, existing) →
  spread (body req) !! "id" = None →
  target req' = DramaDetail id →
  ∃ resp st',
    handle cfg e req st = (Ok resp, st') ∧ status resp = 200 ∧
    fst (handle cfg e' req' st') = Ok resp.
Proof.
  intros Ht Hkey Hfind Hid Ht'. eexists _, _. unfold handle, handle_with.
  rewrite Ht, (requireKey_pass _ _ _ Hkey).
  rewrite (update_drama_found _ _ _ _ _ _ Hfind).
  split; [reflexivity|]. split; [reflexivity|].
  rewrite Ht', drama_detail_run. cbn [fst file].
  set (updated := merge_update existing (body req) (now e 0)).
  apply list_find_Some in Hfind as (Hidx & Hhas & Hfirst).
  assert (list_find (has_id id) (json_object <$> <[idx := updated]> (file st))
          = Some (idx, json_object updated)) as ->.
  { apply list_find_Some. split_and!.
    - rewrite list_lookup_fmap, list_lookup_insert_eq; [done|].
      by eapply lookup_lt_Some.
    - rewrite has_id_json. unfold has_id, get in *. subst updated.
      by rewrite merge_update_kept.
    - intros j y Hj Hlt. rewrite list_lookup_fmap in Hj.
      rewrite list_lookup_insert_ne in Hj by lia.
      destruct (file st !! j) as [d|] eqn:Hd; [|done].
      injection Hj as <-. rewrite has_id_json. by eapply Hfirst. }
  unfold res_json, res_status_json. by rewrite !json_Obj, json_object_idem.
Qed.

Lemma X4_update_then_detail_witness :
  let req := Sample.keyed (UpdateDrama "b") ∅
               (Obj {[ "title" := Str "B2" ]}) in
  let req' := {| target := DramaDetail "b"; headers := ∅; query := ∅;
                 body := Undefined |} in
  ∃ resp st',
    handle Sample.cfg Sample.clock req Sample.two_dramas = (Ok resp, st') ∧
    status resp = 200 ∧
    fst (handle Sample.cfg Sample.clock req' st') = Ok resp.
Proof.
  intros req req'.
  exact (X4_update_then_detail Sample.cfg Sample.clock Sample.clock req req'
           Sample.two_dramas "b" 1 Sample.drama_b
           eq_refl eq_refl eq_refl eq_refl eq_refl).
Defined.

(** ** Delete *)

Lemma delete_kept_stable id (l : list object) :
  filter (λ d, negb (has_id id d))
    (json_object <$> filter (λ d, negb (has_id id d)) l)
  = json_object <$> filter (λ d, negb (has_id id d)) l.
Proof.
  induction l as [|d l IH]; [done|]. rewrite filter_cons.
  destruct (decide (negb (has_id id d))) as [Hd|Hd]; [|exact IH].
  rewrite fmap_cons, filter_cons, decide_True, IH; [done|].
  by rewrite has_id_json.
Qed.

(** X5. Delete, whatever the catalog: the answer is
    [{ok: true, deleted: d}] with [d] the number of stored records whose
    [id] is the one asked for (more than one when [id]s repeat), that
    many records leave the file, and no record with that [id] stays. *)
Theorem X5_delete_counts_matches cfg e req st id :
  target req = DeleteDrama id → authorized cfg req →
  ∃ st',
    handle cfg e req st
    = (Ok {| status := 200;
             sent := Obj {[ "ok" := Bool true;
                            "deleted" :=
                              Num (num_of_nat
                                     (length (filter (λ d, has_id id d)
                                                (file st)))) ]} |}, st') ∧
    length (file st)
    = length (file st') + length (filter (λ d, has_id id d) (file st)) ∧
    Forall (λ d, has_id id d = false) (file st').
Proof.
  intros Ht Hkey. eexists. unfold handle, handle_with.
  rewrite Ht, (requireKey_pass _ _ _ Hkey), delete_drama_run. cbn zeta.
  set (kept := filter (λ r, negb (has_id id r)) (file st)).
  set (gone := filter (λ r, has_id id r) (file st)).
  assert (length (file st) = length kept + length gone) as Hlen.
  { subst kept gone. rewrite negb_has_id_filter.
    rewrite (filter_split_length (λ r, has_id id r) (file st)). lia. }
  split_and!.
  - unfold num_of_nat. rewrite num_sub_Z.
    replace (Z.of_nat (length (file st)) - Z.of_nat (length kept))%Z
      with (Z.of_nat (length gone)) by lia.
    reflexivity.
  - cbn [file]. rewrite length_fmap. fold kept. lia.
  - cbn [file]. apply Forall_fmap, Forall_forall.
    intros d [Hd _]%list_elem_of_filter. cbn. rewrite has_id_json.
    by destruct (has_id id d).
Qed.

Lemma X5_delete_counts_matches_witness :
  let req := Sample.keyed (DeleteDrama "b") ∅ Undefined in
  ∃ st',
    handle Sample.cfg Sample.clock req Sample.two_dramas
    = (Ok {| status := 200;
             sent := Obj {[ "ok" := Bool true;
                            "deleted" :=
                              Num (num_of_nat
                                     (length (filter (λ d, has_id "b" d)
                                        (file Sample.two_dramas)))) ]} |},
       st') ∧
    length (file Sample.two_dramas)
    = length (file st')
      + length (filter (λ d, has_id "b" d) (file Sample.two_dramas)) ∧
    Forall (λ d, has_id "b" d = false) (file st').
Proof.
  intros req.
  exact (X5_delete_counts_matches Sample.cfg Sample.clock req
           Sample.two_dramas "b" eq_refl eq_refl).
Defined.

(** X6. Delete is idempotent: a second delete for the same [id] answers
    [deleted: 0] and leaves the file as the first one left it. *)
Theorem X6_delete_twice cfg e e' req st id :
  target req = DeleteDrama id → authorized cfg req →
  let st1 := snd (handle cfg e req st) in
  ∃ st2,
    handle cfg e' req st1
    = (Ok {| status := 200;
             sent := Obj {[ "ok" := Bool true;
                            "deleted" := Num (num_of_nat 0) ]} |}, st2) ∧
    file st2 = file st1.
Proof.
  intros Ht Hkey st1. subst st1. eexists. unfold handle, handle_with.
  rewrite Ht, !(requireKey_pass _ _ _ Hkey), !delete_drama_run.
  cbn [snd file]. rewrite delete_kept_stable. split.
  - unfold num_of_nat. rewrite num_sub_Z, Z.sub_diag. reflexivity.
  - cbn [file]. apply normal_fmap, write_normal.
Qed.

Lemma X6_delete_twice_witness :
  let req := Sample.keyed (DeleteDrama "a") ∅ Undefined in
  let st1 := snd (handle Sample.cfg Sample.clock req Sample.two_dramas) in
  ∃ st2,
    handle Sample.cfg Sample.clock req st1
    = (Ok {| status := 200;
             sent := Obj {[ "ok" := Bool true;
                            "deleted" := Num (num_of_nat 0) ]} |}, st2) ∧
    file st2 = file st1.
Proof.
  intros req.
  exact (X6_delete_twice Sample.cfg Sample.clock Sample.clock req
           Sample.two_dramas "a" eq_refl eq_refl).
Defined.

(** ** The list route *)

Lemma filter_r_sublist {A} (p : A → result value) (l r : list A) :
  filter_r p l = Ok r → r `sublist_of` l.
Proof.
  revert r. induction l as [|x l IH]; intros r; cbn [filter_r].
  - intros [= <-]. constructor.
  - intros (b & _ & H)%result_bind_Ok.
    apply result_bind_Ok in H as (r' & Hr' & H). injection H as <-.
    specialize (IH r' Hr'). destruct (truthy b); by constructor.
Qed.

Lemma search_filter_sublist v (l r : list object) :
  search_filter v l = Ok r → r `sublist_of` l.
Proof.
  unfold search_filter. destruct (truthy v); [|by intros [= <-]].
  intros (s & _ & H)%result_bind_Ok. by apply filter_r_sublist in H.
Qed.

Lemma genre_filter_sublist v (l r : list object) :
  genre_filter v l = Ok r → r `sublist_of` l.
Proof.
  unfold genre_filter. destruct (truthy v); [|by intros [= <-]].
  intros (s & _ & H)%result_bind_Ok. by apply filter_r_sublist in H.
Qed.

Lemma status_filter_sublist v (l r : list object) :
  status_filter v l = Ok r → r `sublist_of` l.
Proof.
  unfold status_filter. destruct (truthy v); [|by intros [= <-]].
  intros (s & _ & H)%result_bind_Ok. by apply filter_r_sublist in H.
Qed.

Lemma min_year_filter_sublist v (l r : list object) :
  min_year_filter v l = Ok r → r `sublist_of` l.
Proof.
  unfold min_year_filter. destruct (truthy v); [|by intros [= <-]].
  apply filter_r_sublist.
Qed.

Lemma max_year_filter_sublist v (l r : list object) :
  max_year_filter v l = Ok r → r `sublist_of` l.
Proof.
  unfold max_year_filter. destruct (truthy v); [|by intros [= <-]].
  apply filter_r_sublist.
Qed.

Lemma insert_sorted_perm {A} (cmp : A → A → result Z) x (l r : list A) :
  insert_sorted cmp x l = Ok r → r ≡ₚ x :: l.
Proof.
  revert r. induction l as [|y l IH]; intros r; cbn [insert_sorted].
  - by intros [= <-].
  - intros (c & _ & H)%result_bind_Ok. destruct (0 <? c)%Z.
    + apply result_bind_Ok in H as (r' & Hr' & H). injection H as <-.
      rewrite (IH r' Hr'). apply Permutation_swap.
    + by injection H as <-.
Qed.

Lemma sort_perm {A} (cmp : A → A → result Z) (l r : list A) :
  sort cmp l = Ok r → r ≡ₚ l.
Proof.
  revert r. induction l as [|x l IH]; intros r; cbn [sort].
  - by intros [= <-].
  - intros (r' & Hr' & H)%result_bind_Ok.
    rewrite (insert_sorted_perm _ _ _ _ H). by rewrite (IH r' Hr').
Qed.

Lemma slice_sublist {A} (l : list A) a b : slice l a b `sublist_of` l.
Proof.
  unfold slice. etransitivity; [apply sublist_take|apply sublist_drop].
Qed.

(** The list route is the query on the records of the file. *)
Lemma list_dramas_run req st :
  list_dramas reliable req st
  = (match list_query (query req) (file st) with
     | Ok pg => Ok (res_json (page_value pg))
     | Throw err => Throw err
     end,
     {| file := file st; data := file st; log := log st ++ [Read] |}).
Proof.
  unfold list_dramas, list_query, mbind, handler_bind, eval, db_read, dramas.
  cbn [fst snd data file log reliable read_fails].
  repeat match goal with
         | |- context [match ?r with Ok _ => _ | Throw _ => _ end] =>
             destruct r; cbn [result_bind]
         end; reflexivity.
Qed.

(** X7. Whatever the [sort] parameter, the sort of the list route only
    rearranges: when it returns, its result has the records it was given,
    each as many times. *)
Theorem X7_sort_rearranges (sort_param : value) (lst sorted : list object) :
  sort_by sort_param lst = Ok sorted → sorted ≡ₚ lst.
Proof.
  unfold sort_by. intros (s & _ & H)%result_bind_Ok. by apply sort_perm in H.
Qed.

Lemma X7_sort_rearranges_witness :
  ∃ sorted, sort_by (Str "updated_at:asc") (file More.shelf) = Ok sorted ∧
            sorted ≡ₚ file More.shelf.
Proof.
  eexists. split; [reflexivity|].
  apply (X7_sort_rearranges (Str "updated_at:asc") (file More.shelf)).
  reflexivity.
Defined.

(** X8. The list route answers with stored records only: when the query
    returns, the items of the page are among the records of the file
    (none twice that is stored once), [total] is at most the size of the
    catalog and the page has at most [total] items. *)
Theorem X8_list_returns_stored cfg e req st :
  target req = ListDramas →
  ∀ resp, fst (handle cfg e req st) = Ok resp →
  ∃ pg, resp = {| status := 200; sent := json (page_value pg) |} ∧
        items pg ⊆+ file st ∧
        total pg ≤ length (file st) ∧
        length (items pg) ≤ total pg.
Proof.
  intros Ht resp. unfold handle, handle_with. rewrite Ht, list_dramas_run. cbn [fst].
  destruct (list_query (query req) (file st)) as [pg|] eqn:Hq; [|done].
  intros [= <-]. exists pg. split; [done|].
  unfold list_query in Hq.
  apply result_bind_Ok in Hq as (l1 & H1 & Hq).
  apply result_bind_Ok in Hq as (l2 & H2 & Hq).
  apply result_bind_Ok in Hq as (l3 & H3 & Hq).
  apply result_bind_Ok in Hq as (l4 & H4 & Hq).
  apply result_bind_Ok in Hq as (l5 & H5 & Hq).
  apply result_bind_Ok in Hq as (l6 & H6 & Hq).
  apply result_bind_Ok in Hq as (p & _ & Hq).
  apply result_bind_Ok in Hq as (l & _ & Hq). injection Hq as <-.
  assert (l5 `sublist_of` file st) as Hsub.
  { transitivity l4; [by eapply max_year_filter_sublist|].
    transitivity l3; [by eapply min_year_filter_sublist|].
    transitivity l2; [by eapply status_filter_sublist|].
    transitivity l1; [by eapply genre_filter_sublist|].
    by eapply search_filter_sublist. }
  assert (l6 ≡ₚ l5) as Hperm.
  { unfold sort_by in H6. apply result_bind_Ok in H6 as (s & _ & H6).
    by apply sort_perm in H6. }
  cbn [paginate items total from_option id]. split_and!.
  - transitivity l6; [apply sublist_submseteq, slice_sublist|].
    rewrite Hperm. by apply sublist_submseteq.
  - rewrite Hperm. by apply sublist_length.
  - apply sublist_length, slice_sublist.
Qed.

Lemma X8_list_returns_stored_witness :
  let req := {| target := ListDramas; headers := ∅;
                query := {[ "status" := Str "ongoing"; "limit" := Str "1" ]};
                body := Undefined |} in
  ∃ resp pg,
    fst (handle Sample.cfg Sample.clock req More.shelf) = Ok resp ∧
    resp = {| status := 200; sent := json (page_value pg) |} ∧
    items pg ⊆+ file More.shelf ∧
    total pg ≤ length (file More.shelf) ∧
    length (items pg) ≤ total pg.
Proof.
  intros req.
  assert (∃ resp, fst (handle Sample.cfg Sample.clock req More.shelf)
                  = Ok resp) as [resp Hresp] by (eexists; reflexivity).
  destruct (X8_list_returns_stored Sample.cfg Sample.clock req More.shelf
              eq_refl resp Hresp) as (pg & Hpg).
  by exists resp, pg.
Defined.

(** ** The order of the list *)

Lemma ascii_compare_refl x : Ascii.compare x x = Eq.
Proof. unfold Ascii.compare. apply N.compare_refl. Qed.

Lemma ascii_compare_lt_trans x y z :
  Ascii.compare x y = Lt → Ascii.compare y z = Lt → Ascii.compare x z = Lt.
Proof.
  unfold Ascii.compare. rewrite !N.compare_lt_iff. apply N.lt_trans.
Qed.

Lemma string_compare_lt_trans a b c :
  String.compare a b = Lt → String.compare b c = Lt →
  String.compare a c = Lt.
Proof.
  revert b c. induction a as [|x a IH]; intros [|y b] [|z c]; simpl; try done.
  destruct (Ascii.compare x y) eqn:Hxy, (Ascii.compare y z) eqn:Hyz;
    try done.
  - apply Ascii.compare_eq_iff in Hxy as ->.
    apply Ascii.compare_eq_iff in Hyz as ->.
    rewrite ascii_compare_refl. apply IH.
  - apply Ascii.compare_eq_iff in Hxy as ->. by rewrite Hyz.
  - apply Ascii.compare_eq_iff in Hyz as <-. by rewrite Hxy.
  - by rewrite (ascii_compare_lt_trans _ _ _ Hxy Hyz).
Qed.

Lemma string_ltb_asym a b : String.ltb a b = true → String.ltb b a = false.
Proof.
  unfold String.ltb. rewrite (String.compare_antisym b a).
  by destruct (String.compare a b).
Qed.

(** Not being below is transitive: the order of strings is total. *)
Lemma string_not_below_trans a b c :
  String.ltb a b = false → String.ltb b c = false → String.ltb a c = false.
Proof.
  unfold String.ltb. intros Hab Hbc.
  destruct (String.compare a c) eqn:Hac; try done. exfalso.
  destruct (String.compare a b) eqn:Hab'; try done.
  - apply String.compare_eq_iff in Hab' as ->. by rewrite Hac in Hbc.
  - assert (String.compare b a = Lt) as Hba
      by (rewrite String.compare_antisym, Hab'; done).
    by rewrite (string_compare_lt_trans _ _ _ Hba Hac) in Hbc.
Qed.

Section sorting.
Context {A : Type} (cmp : A → A → result Z) (R : A → A → Prop).
Context (ok : A → Prop) `{!Transitive R}.
Hypothesis cmp_sound :
  ∀ x y, ok x → ok y →
    ∃ c, cmp x y = Ok c ∧ ((0 < c)%Z → R y x) ∧ (¬ (0 < c)%Z → R x y).

Lemma insert_sorted_sorted x l :
  ok x → Forall ok l → StronglySorted R l →
  ∃ r, insert_sorted cmp x l = Ok r ∧ StronglySorted R r.
Proof.
  intros Hx Hok Hsorted. revert Hok.
  induction Hsorted as [|y l Hl IH Hy]; intros Hok; cbn [insert_sorted].
  - exists [x]. split; [done|]. repeat constructor.
  - apply Forall_cons in Hok as [Hoky Hok].
    destruct (cmp_sound x y Hx Hoky) as (c & -> & Hpos & Hneg). cbn.
    destruct (Z.ltb_spec 0 c) as [Hc|Hc].
    + destruct (IH Hok) as (r & Hr & Hsorted). rewrite Hr. cbn.
      exists (y :: r). split; [done|]. constructor; [done|].
      apply insert_sorted_perm in Hr. rewrite Hr. constructor; auto.
    + exists (x :: y :: l). split; [done|].
      assert (R x y) as Hxy by (apply Hneg; lia).
      constructor; [by constructor|]. constructor; [done|].
      eapply Forall_impl; [exact Hy|]. intros z Hz. by transitivity y.
Qed.

Lemma sort_sorted l :
  Forall ok l → ∃ r, sort cmp l = Ok r ∧ StronglySorted R r.
Proof.
  induction 1 as [|x l Hx Hl (r & Hr & Hsorted)]; cbn [sort].
  - exists []. split; [done|constructor].
  - rewrite Hr. cbn. apply insert_sorted_sorted; [done| |done].
    apply sort_perm in Hr. by rewrite Hr.
Qed.
End sorting.

Lemma compare_by_stamps dir (a b : object) :
  stamped a → stamped b →
  compare_by "updated_at" dir a b
  = Ok (if String.ltb (stamp a) (stamp b)
        then (if strict_eq_str dir "desc" then 1 else -1)
        else if String.ltb (stamp b) (stamp a)
             then (if strict_eq_str dir "desc" then -1 else 1)
             else 0)%Z.
Proof.
  unfold stamped, stamp, compare_by.
  destruct (get a "updated_at") as [| | | |s| |]; try done.
  destruct (get b "updated_at") as [| | | |t| |]; try done.
  intros _ _. cbn. destruct (String.ltb s t); [done|].
  cbn. by destruct (String.ltb t s).
Qed.

#[local] Instance newest_first_trans :
  Transitive (λ a b : object, String.ltb (stamp a) (stamp b) = false).
Proof. intros a b c. apply string_not_below_trans. Qed.

#[local] Instance oldest_first_trans :
  Transitive (λ a b : object, String.ltb (stamp b) (stamp a) = false).
Proof. intros a b c Hab Hbc. by eapply string_not_below_trans. Qed.

Lemma sort_by_updated_at_desc (lst : list object) :
  Forall stamped lst →
  ∃ sorted, sort_by (Str "updated_at:desc") lst = Ok sorted ∧
    StronglySorted (λ a b, String.ltb (stamp a) (stamp b) = false) sorted.
Proof.
  intros Hl. unfold sort_by. cbn [ToString mbind result_bind].
  change (split_colon "updated_at:desc") with ["updated_at"; "desc"].
  cbn [lookup list_lookup from_option].
  apply (sort_sorted _ _ stamped); [|done].
  intros x y Hx Hy. rewrite (compare_by_stamps _ _ _ Hx Hy). cbn.
  eexists. split; [reflexivity|].
  destruct (String.ltb (stamp x) (stamp y)) eqn:Hxy.
  - split; [|lia]. intros _. by apply string_ltb_asym.
  - split; [|done]. destruct (String.ltb (stamp y) (stamp x)); lia.
Qed.

(** X9. Sorting by [updated_at]: on records whose [updated_at] is a
    string the sort returns, in both directions; under [updated_at:desc],
    the default, no record stands before one with a later [updated_at],
    and under [updated_at:asc] none stands before one with an earlier
    [updated_at]. *)
Theorem X9_sort_by_updated_at (lst : list object) :
  Forall stamped lst →
  (∃ sorted, sort_by (Str "updated_at:desc") lst = Ok sorted ∧
     sorted ≡ₚ lst ∧
     StronglySorted (λ a b, String.ltb (stamp a) (stamp b) = false) sorted) ∧
  (∃ sorted, sort_by (Str "updated_at:asc") lst = Ok sorted ∧
     sorted ≡ₚ lst ∧
     StronglySorted (λ a b, String.ltb (stamp b) (stamp a) = false) sorted).
Proof.
  intros Hl. split.
  - destruct (sort_by_updated_at_desc lst Hl) as (sorted & Hs & Hsorted).
    exists sorted. split_and!; [done| |done].
    unfold sort_by in Hs. apply result_bind_Ok in Hs as (s & _ & Hs).
    by apply sort_perm in Hs.
  - unfold sort_by. cbn [ToString mbind result_bind].
    change (split_colon "updated_at:asc") with ["updated_at"; "asc"].
    cbn [lookup list_lookup from_option].
    destruct (sort_sorted (compare_by "updated_at" (Str "asc"))
                (λ a b, String.ltb (stamp b) (stamp a) = false) stamped)
      with (l := lst) as (sorted & Hs & Hsorted); [|done|].
    + intros x y Hx Hy. rewrite (compare_by_stamps _ _ _ Hx Hy). cbn.
      eexists. split; [reflexivity|].
      destruct (String.ltb (stamp x) (stamp y)) eqn:Hxy.
      * split; [lia|]. intros _. by apply string_ltb_asym.
      * destruct (String.ltb (stamp y) (stamp x)) eqn:Hyx; split; try lia;
          done.
    + exists sorted. split_and!; [done|by apply sort_perm in Hs|done].
Qed.

Lemma shelf_stamped : Forall stamped (file More.shelf).
Proof. repeat constructor. Qed.

Lemma X9_sort_by_updated_at_witness :
  (∃ sorted, sort_by (Str "updated_at:desc") (file More.shelf) = Ok sorted ∧
     sorted ≡ₚ file More.shelf ∧
     StronglySorted (λ a b, String.ltb (stamp a) (stamp b) = false) sorted) ∧
  (∃ sorted, sort_by (Str "updated_at:asc") (file More.shelf) = Ok sorted ∧
     sorted ≡ₚ file More.shelf ∧
     StronglySorted (λ a b, String.ltb (stamp b) (stamp a) = false) sorted).
Proof. exact (X9_sort_by_updated_at (file More.shelf) shelf_stamped). Defined.

(** X10. The list route without query parameters, on a catalog whose
    [updated_at]s are strings: it answers 200 with [page] 1, [limit] 24,
    [total] the size of the catalog, and as items the first 24 records of
    the catalog put most recently updated first. *)
Theorem X10_default_listing cfg e req st :
  target req = ListDramas → query req = ∅ → Forall stamped (file st) →
  ∃ sorted pg,
    fst (handle cfg e req st)
    = Ok {| status := 200; sent := json (page_value pg) |} ∧
    sorted ≡ₚ file st ∧
    StronglySorted (λ a b, String.ltb (stamp a) (stamp b) = false) sorted ∧
    items pg = take 24 sorted ∧
    page pg = num_of_Z 1 ∧ limit pg = num_of_Z 24 ∧
    total pg = length (file st).
Proof.
  intros Ht Hq Hl.
  destruct (sort_by_updated_at_desc (file st) Hl) as (sorted & Hs & Hsorted).
  assert (sorted ≡ₚ file st) as Hperm.
  { pose proof Hs as Hs'. unfold sort_by in Hs'.
    apply result_bind_Ok in Hs' as (s & _ & Hs'). by apply sort_perm in Hs'. }
  exists sorted, (paginate sorted (Some (num_of_Z 1)) (Some (num_of_Z 24))).
  unfold handle, handle_with. rewrite Ht, list_dramas_run, Hq. cbn [fst].
  assert (list_query ∅ (file st)
          = Ok (paginate sorted (Some (num_of_Z 1)) (Some (num_of_Z 24))))
    as ->.
  { unfold list_query, param, get. rewrite !lookup_empty.
    cbn [from_option id]. unfold search_filter, genre_filter, status_filter,
      min_year_filter, max_year_filter.
    cbn [truthy String.eqb negb mbind result_bind]. by rewrite Hs. }
  split_and!; try done.
  - unfold paginate. cbn [items from_option id].
    rewrite num_sub_Z, num_mul_Z, num_add_Z, slice_window by lia.
    by rewrite drop_0.
  - unfold paginate. cbn [total]. by rewrite Hperm.
Qed.

Lemma X10_default_listing_witness :
  let req := {| target := ListDramas; headers := ∅; query := ∅;
                body := Undefined |} in
  ∃ sorted pg,
    fst (handle Sample.cfg Sample.clock req More.shelf)
    = Ok {| status := 200; sent := json (page_value pg) |} ∧
    sorted ≡ₚ file More.shelf ∧
    StronglySorted (λ a b, String.ltb (stamp a) (stamp b) = false) sorted ∧
    items pg = take 24 sorted ∧
    page pg = num_of_Z 1 ∧ limit pg = num_of_Z 24 ∧
    total pg = length (file More.shelf).
Proof.
  intros req.
  exact (X10_default_listing Sample.cfg Sample.clock req More.shelf
           eq_refl eq_refl shelf_stamped).
Defined.

(** ** Pages *)

Lemma paginate_items (lst : list object) (p L : Z) :
  (1 ≤ p)%Z → (1 ≤ L)%Z →
  items (paginate lst (Some (num_of_Z p)) (Some (num_of_Z L)))
  = take (Z.to_nat L) (drop (Z.to_nat ((p - 1) * L)) lst).
Proof.
  intros Hp HL. unfold paginate. cbn [items from_option id].
  rewrite num_sub_Z, num_mul_Z, num_add_Z, slice_window by nia.
  f_equal. lia.
Qed.

(** X11. The pages of a list tile it: for a whole [limit >= 1], the
    items of pages 1 to [n] in a row are the first [n * limit] records, so
    the pages up to the last give the whole list, each record once and in
    order. *)
Theorem X11_pages_tile_the_list (lst : list object) (L : Z) (n : nat) :
  (1 ≤ L)%Z →
  concat ((λ p, items (paginate lst (Some (num_of_Z (Z.of_nat p)))
                         (Some (num_of_Z L)))) <$> seq 1 n)
  = take (n * Z.to_nat L) lst ∧
  (length lst ≤ n * Z.to_nat L →
   concat ((λ p, items (paginate lst (Some (num_of_Z (Z.of_nat p)))
                          (Some (num_of_Z L)))) <$> seq 1 n)
   = lst).
Proof.
  intros HL.
  assert (concat ((λ p, items (paginate lst (Some (num_of_Z (Z.of_nat p)))
                                 (Some (num_of_Z L)))) <$> seq 1 n)
          = take (n * Z.to_nat L) lst) as Hcat.
  { induction n as [|n IH]; [done|].
    rewrite seq_S, fmap_app, concat_app, IH. cbn [fmap list_fmap concat].
    rewrite app_nil_r, paginate_items by lia.
    replace (Z.to_nat ((Z.of_nat (1 + n) - 1) * L)) with (n * Z.to_nat L)
      by nia.
    rewrite take_take_drop. f_equal. nia. }
  split; [exact Hcat|]. intros Hlen. rewrite Hcat. by apply take_ge.
Qed.

Lemma X11_pages_tile_the_list_witness :
  concat ((λ p, items (paginate Sample.thirty (Some (num_of_Z (Z.of_nat p)))
                         (Some (num_of_Z 24)))) <$> seq 1 2)
  = Sample.thirty.
Proof.
  apply (proj2 (X11_pages_tile_the_list Sample.thirty 24 2 ltac:(lia))).
  vm_compute. lia.
Defined.

(** X12. A [page] or a [limit] that is not a number ([?page=abc]) gives
    an empty page and no error, and so does [limit=0]; with [limit=0]
    the number of pages is not finite and the response carries [null]
    for it. *)
Theorem X12_paginate_degenerate (lst : list object) (p l : num) :
  ToNumber (Str "abc") = Ok NaN ∧
  items (paginate lst (Some NaN) (Some l)) = [] ∧
  items (paginate lst (Some p) (Some NaN)) = [] ∧
  items (paginate lst (Some p) (Some (num_of_Z 0))) = [] ∧
  json (Num (pages (paginate lst (Some p) (Some (num_of_Z 0))))) = Null.
Proof.
  assert (∀ a, slice lst a a = []) as Hsame.
  { intros a. unfold slice. by rewrite Nat.sub_diag. }
  assert (∀ x, num_mul x NaN = NaN) as HmulN by (by intros [| |]).
  split_and!.
  - reflexivity.
  - unfold paginate. cbn [items from_option id num_sub num_mul num_add].
    apply Hsame.
  - unfold paginate. cbn [items from_option id].
    rewrite HmulN. cbn [num_add]. apply Hsame.
  - unfold paginate. cbn [items from_option id].
    destruct (num_sub p (num_of_Z 1)) as [|s|q] eqn:Hp.
    + apply Hsame.
    + change (num_mul (Inf s) (num_of_Z 0)) with NaN. apply Hsame.
    + change (num_mul (Fin q) (num_of_Z 0)) with (Fin (Qred (q * 0))).
      change (num_add (Fin (Qred (q * 0))) (num_of_Z 0))
        with (Fin (Qred (Qred (q * 0) + 0))).
      assert (Qred (q * 0) = 0%Q) as ->.
      { apply (Qred_integer _ 0). unfold Qeq. simpl. lia. }
      apply Hsame.
  - unfold paginate. cbn [pages from_option id].
    unfold num_div, num_of_nat, num_of_Z.
    change (Qis_zero (inject_Z 0)) with true. cbv iota.
    by destruct (Qis_zero _).
Qed.

(** ** Genre and status *)

Lemma toLowerCase_nonempty s : s ≠ "" → toLowerCase s ≠ "".
Proof. by destruct s. Qed.

Lemma some_lower_equals g (l : list value) :
  Forall (λ x, match x with Str _ => True | _ => False end) l →
  some_r (lower_equals g) l
  = Ok (existsb (λ x, String.eqb (toLowerCase x) g)
          (omap (λ x, match x with Str s => Some s | _ => None end) l)).
Proof.
  induction 1 as [|x l Hx _ IH]; [done|].
  destruct x as [| | | |t| |]; try done.
  cbn [some_r lower_equals mbind result_bind omap list_omap existsb].
  by destruct (String.eqb (toLowerCase t) g).
Qed.

Lemma genre_matches_plain g d :
  genres_plain d →
  genre_matches g d
  = Ok (Bool (existsb (λ x, String.eqb (toLowerCase x) g) (genres_of d))).
Proof.
  unfold genres_plain, genre_matches, genres_of, or_else.
  destruct (get d "genres") as [| |b|n|t|l|m] eqn:Hg; cbn [truthy];
    try done; try (by intros ->).
  intros Hl. by rewrite (some_lower_equals g l Hl).
Qed.

(** X13. The genre filter, on records whose [genres] is an array of
    strings or missing: for a non-empty [genre] it keeps, in their order,
    exactly the records one of whose genres equals [genre] when case is
    ignored, so a record without genres is never kept; without [genre]
    it keeps every record. *)
Theorem X13_genre_filter (lst : list object) (s : string) :
  Forall genres_plain lst → s ≠ "" →
  ∃ out,
    genre_filter (Str s) lst = Ok out ∧
    out `sublist_of` lst ∧
    (∀ d, d ∈ out ↔
          d ∈ lst ∧ ∃ x, x ∈ genres_of d ∧ toLowerCase x = toLowerCase s) ∧
    genre_filter Undefined lst = Ok lst ∧
    genre_filter (Str "") lst = Ok lst.
Proof.
  intros Hl Hs.
  exists (filter (λ d, existsb (λ x, String.eqb (toLowerCase x) (toLowerCase s))
                    (genres_of d)) lst).
  assert (genre_filter (Str s) lst
          = Ok (filter (λ d, existsb
                  (λ x, String.eqb (toLowerCase x) (toLowerCase s))
                  (genres_of d)) lst)) as Hrun.
  { unfold genre_filter. cbn [truthy ToString mbind result_bind].
    destruct (String.eqb_spec s "") as [|_]; [done|]. cbn [negb].
    apply filter_r_bool. eapply Forall_impl; [exact Hl|].
    intros d Hd. by apply genre_matches_plain. }
  split_and!; try done.
  - apply sublist_filter.
  - intros d. rewrite list_elem_of_filter, Is_true_true, existsb_exists.
    split.
    + intros [(x & Hx & Heq) Hd]. split; [done|]. exists x.
      split; [by apply list_elem_of_In|by apply String.eqb_eq].
    + intros [Hd (x & Hx & Heq)]. split; [|done]. exists x.
      split; [by apply list_elem_of_In|by apply String.eqb_eq].
Qed.

Lemma X13_genre_filter_witness :
  ∃ out,
    genre_filter (Str "WUXIA") (file More.shelf) = Ok out ∧
    out `sublist_of` file More.shelf ∧
    (∀ d, d ∈ out ↔
          d ∈ file More.shelf ∧
          ∃ x, x ∈ genres_of d ∧ toLowerCase x = toLowerCase "WUXIA") ∧
    genre_filter Undefined (file More.shelf) = Ok (file More.shelf) ∧
    genre_filter (Str "") (file More.shelf) = Ok (file More.shelf).
Proof.
  apply (X13_genre_filter (file More.shelf) "WUXIA").
  - repeat constructor.
  - discriminate.
Defined.

Lemma status_matches_plain s d :
  status_plain d →
  status_matches s d
  = Ok (Bool (String.eqb (toLowerCase (status_of d)) s)).
Proof.
  unfold status_plain, status_matches, status_of, or_else.
  destruct (get d "status") as [| |b|n|t|l|m] eqn:Hg; cbn [truthy];
    try done; try (by intros ->).
  intros _. by destruct (String.eqb_spec t "") as [->|].
Qed.

(** X14. The status filter, on records whose [status] is a string or
    missing: for a non-empty [status] it keeps, in their order, exactly
    the records whose status equals it when case is ignored, so a record
    without status is never kept; without [status] it keeps every
    record. *)
Theorem X14_status_filter (lst : list object) (s : string) :
  Forall status_plain lst → s ≠ "" →
  ∃ out,
    status_filter (Str s) lst = Ok out ∧
    out `sublist_of` lst ∧
    (∀ d, d ∈ out ↔
          d ∈ lst ∧ toLowerCase (status_of d) = toLowerCase s) ∧
    (∀ d, d ∈ out → status_of d ≠ "") ∧
    status_filter Undefined lst = Ok lst ∧
    status_filter (Str "") lst = Ok lst.
Proof.
  intros Hl Hs.
  exists (filter (λ d, String.eqb (toLowerCase (status_of d)) (toLowerCase s))
            lst).
  assert (status_filter (Str s) lst
          = Ok (filter (λ d, String.eqb (toLowerCase (status_of d))
                               (toLowerCase s)) lst)) as Hrun.
  { unfold status_filter. cbn [truthy ToString mbind result_bind].
    destruct (String.eqb_spec s "") as [|_]; [done|]. cbn [negb].
    apply filter_r_bool. eapply Forall_impl; [exact Hl|].
    intros d Hd. by apply status_matches_plain. }
  assert (∀ d, d ∈ filter (λ d, String.eqb (toLowerCase (status_of d))
                                   (toLowerCase s)) lst ↔
               d ∈ lst ∧ toLowerCase (status_of d) = toLowerCase s) as Hin.
  { intros d. rewrite list_elem_of_filter, Is_true_true, String.eqb_eq.
    tauto. }
  split_and!; try done.
  - apply sublist_filter.
  - intros d [_ Heq]%Hin Hempty. rewrite Hempty in Heq.
    by apply (toLowerCase_nonempty s Hs).
Qed.

Lemma X14_status_filter_witness :
  ∃ out,
    status_filter (Str "ONGOING") (file More.shelf) = Ok out ∧
    out `sublist_of` file More.shelf ∧
    (∀ d, d ∈ out ↔
          d ∈ file More.shelf ∧
          toLowerCase (status_of d) = toLowerCase "ONGOING") ∧
    (∀ d, d ∈ out → status_of d ≠ "") ∧
    status_filter Undefined (file More.shelf) = Ok (file More.shelf) ∧
    status_filter (Str "") (file More.shelf) = Ok (file More.shelf).
Proof.
  apply (X14_status_filter (file More.shelf) "ONGOING").
  - repeat constructor.
  - discriminate.
Defined.

(** ** Errors of the search *)

Lemma filter_r_throws {A} (p : A → result value) (l : list A) x :
  x ∈ l → (∃ err, p x = Throw err) → ∃ err, filter_r p l = Throw err.
Proof.
  intros Hx Hp. induction Hx as [x l|x y l _ IH]; cbn [filter_r].
  - destruct Hp as [err ->]. by exists err.
  - destruct (p y) as [b|err]; [|by exists err]. cbn.
    destruct (IH Hp) as [err' ->]. by exists err'.
Qed.

(** X15. One record whose [title] is neither a string nor missing makes
    every non-empty search fail: the list route throws, whatever the
    other records and the other parameters are, and answers no page. *)
Theorem X15_search_fails_on_non_text_title cfg e req st d s :
  target req = ListDramas → query req !! "search" = Some (Str s) → s ≠ "" →
  d ∈ file st → ¬ text_or_absent (get d "title") →
  ∃ err, fst (handle cfg e req st) = Throw err.
Proof.
  intros Ht Hq Hs Hd Htitle. unfold handle, handle_with. rewrite Ht, list_dramas_run.
  cbn [fst].
  assert (∃ err, search_filter (Str s) (file st) = Throw err) as [err Herr].
  { unfold search_filter. cbn [truthy ToString mbind result_bind].
    destruct (String.eqb_spec s "") as [|_]; [done|]. cbn [negb].
    apply (filter_r_throws _ _ d Hd). unfold search_matches, lower_includes.
    destruct (get d "title") as [| | | | | |]; cbn in Htitle |- *;
      try (by destruct Htitle); eauto. }
  assert (param (query req) "search" (Str "") = Str s) as Hparam.
  { unfold param, get. by rewrite Hq. }
  exists err. unfold list_query. by rewrite Hparam, Herr.
Qed.

Lemma X15_search_fails_on_non_text_title_witness :
  let bad : object := {[ "id" := Str "x"; "title" := Num (num_of_Z 5) ]} in
  let st := {| file := [Sample.drama_a; bad]; data := []; log := [] |} in
  let req := {| target := ListDramas; headers := ∅;
                query := {[ "search" := Str "a" ]}; body := Undefined |} in
  ∃ err, fst (handle Sample.cfg Sample.clock req st) = Throw err.
Proof.
  intros bad st req.
  apply (X15_search_fails_on_non_text_title Sample.cfg Sample.clock req st
           bad "a"); try reflexivity.
  - discriminate.
  - right. left.
  - intros [].
Defined.

(** ** Seeded records *)

Lemma pretty_Z_of_nat (n : nat) : pretty (Z.of_nat n) = pretty n.
Proof. by destruct n. Qed.

Lemma NumberToString_nat (n : nat) :
  NumberToString (num_of_nat n) = pretty n.
Proof.
  unfold NumberToString, num_of_nat, num_of_Z. rewrite Qred_inject_Z.
  cbn [Qnum Qden inject_Z Pos.size_nat frac_digits].
  rewrite Z.mod_1_r, Z.div_1_r. cbn [Z.eqb].
  destruct (Z.ltb_spec (Z.of_nat n) 0) as [|_]; [lia|].
  rewrite Z.abs_eq by lia. rewrite pretty_Z_of_nat.
  unfold String.app. cbn [String.append].
  induction (pretty n) as [|c r IH]; [done|]. cbn. by rewrite IH.
Qed.

(** X16. The records seed makes: the [i]-th (from 0) is titled
    "Sample C-Drama" followed by [i+1] in decimal, is "Ongoing" for even
    [i] and "Completed" for odd [i], and is in the form the file keeps;
    the titles of the samples differ from each other. *)
Theorem X16_samples (e : env) (n : nat) :
  (∀ i, get (sample e i) "title" = Str ("Sample C-Drama " +:+ pretty (i + 1)) ∧
        get (sample e i) "status"
        = Str (if Nat.even i then "Ongoing" else "Completed") ∧
        json_object (sample e i) = sample e i) ∧
  NoDup ((λ d, get d "title") <$> (sample e <$> seq 0 n)).
Proof.
  assert (∀ i, get (sample e i) "title"
               = Str ("Sample C-Drama " +:+ pretty (i + 1))) as Htitle.
  { intros i. rewrite <- NumberToString_nat. reflexivity. }
  split.
  - intros i. split_and!; [apply Htitle|reflexivity|apply sample_normal].
  - rewrite <- list_fmap_compose. apply NoDup_fmap_2_strong; [|apply NoDup_seq].
    intros i j _ _. unfold compose. rewrite !Htitle. intros [= Heq].
    change ("" +:+ ?a) with a in Heq. apply (inj pretty) in Heq. lia.
Qed.

(** ** The key *)

(** X17. The configured secret is never the empty string (an [API_KEY]
    set to nothing falls back to the default), so a mutating request
    whose [x-api-key] header is empty is answered 401 under every
    configuration. *)
Theorem X17_empty_key_rejected cfg e req st :
  is_mutating (target req) = true →
  headers req !! "x-api-key" = Some "" →
  API_KEY cfg ≠ "" ∧
  handle cfg e req st = (Ok unauthorized_response, st).
Proof.
  intros Hm Hkey.
  assert (API_KEY cfg ≠ "") as Hne.
  { unfold API_KEY. destruct (env_API_KEY cfg) as [k|]; [|done].
    by destruct (String.eqb_spec k ""). }
  split; [done|]. unfold handle, handle_with.
  destruct (target req); try discriminate Hm; apply requireKey_reject;
    unfold authorized; rewrite Hkey; congruence.
Qed.

Lemma X17_empty_key_rejected_witness :
  let cfg := {| env_API_KEY := Some "" |} in
  let req := {| target := Seed; headers := {[ "x-api-key" := "" ]};
                query := ∅; body := Undefined |} in
  API_KEY cfg ≠ "" ∧
  handle cfg Sample.clock req Sample.two_dramas
  = (Ok unauthorized_response, Sample.two_dramas).
Proof.
  intros cfg req.
  exact (X17_empty_key_rejected cfg Sample.clock req Sample.two_dramas
           eq_refl eq_refl).
Defined.

(** ** Storage that fails *)

Lemma faults_reliable io :
  read_fails io = false → write_fails io = false → io = reliable.
Proof. destruct io as [[] []]; by intros. Qed.

Section Faults.
Context (io : faults) (e : env).

(** A read that fails ends the handler: list, detail, update, delete and
    seed start with it, create once the record is built. *)
Lemma read_fails_run (h : handler response) st :
  read_fails io = true →
  (db_read io;; h) st = (Throw (StorageError "read"), after_read_failure st).
Proof.
  intros Hr. unfold mbind, handler_bind, db_read. by rewrite Hr.
Qed.

Lemma list_dramas_read_fails req st :
  read_fails io = true →
  list_dramas io req st
  = (Throw (StorageError "read"), after_read_failure st).
Proof. apply read_fails_run. Qed.

Lemma drama_detail_read_fails id st :
  read_fails io = true →
  drama_detail io id st
  = (Throw (StorageError "read"), after_read_failure st).
Proof. apply read_fails_run. Qed.

Lemma update_drama_read_fails id req st :
  read_fails io = true →
  update_drama io e id req st
  = (Throw (StorageError "read"), after_read_failure st).
Proof. apply read_fails_run. Qed.

Lemma delete_drama_read_fails id st :
  read_fails io = true →
  delete_drama io id st
  = (Throw (StorageError "read"), after_read_failure st).
Proof. apply read_fails_run. Qed.

Lemma seed_read_fails req st :
  read_fails io = true →
  seed io e req st = (Throw (StorageError "read"), after_read_failure st).
Proof. apply read_fails_run. Qed.

Lemma create_drama_read_fails req st :
  read_fails io = true →
  create_drama io e req st
  = match new_item (nanoid e 0) (now e 0) (or_else (body req) (Obj ∅)) with
    | Ok _ => (Throw (StorageError "read"), after_read_failure st)
    | Throw err => (Throw err, st)
    end.
Proof.
  intros Hr. unfold create_drama, mbind, handler_bind, eval, db_read.
  rewrite Hr. by destruct (new_item _ _ _).
Qed.

(** The routes that only read do not depend on the write. *)
Lemma list_dramas_reads req st :
  read_fails io = false → list_dramas io req st = list_dramas reliable req st.
Proof.
  intros Hr. unfold list_dramas, mbind, handler_bind, db_read. by rewrite Hr.
Qed.

Lemma drama_detail_reads id st :
  read_fails io = false → drama_detail io id st = drama_detail reliable id st.
Proof.
  intros Hr. unfold drama_detail, mbind, handler_bind, db_read.
  by rewrite Hr.
Qed.

(** A write that fails: [db.data] holds the change, the file does not. *)
Lemma create_drama_write_fails req st :
  read_fails io = false → write_fails io = true →
  create_drama io e req st
  = match new_item (nanoid e 0) (now e 0) (or_else (body req) (Obj ∅)) with
    | Ok item =>
        (Throw (StorageError "write"),
         after_write_failure st (item :: file st))
    | Throw err => (Throw err, st)
    end.
Proof.
  intros Hr Hw.
  unfold create_drama, mbind, handler_bind, eval, db_read, db_write.
  rewrite Hr. destruct (new_item _ _ _); [|done]. simpl. by rewrite Hw.
Qed.

Lemma update_drama_write_fails id req st :
  read_fails io = false → write_fails io = true →
  update_drama io e id req st
  = match list_find (has_id id) (file st) with
    | Some (idx, existing) =>
        (Throw (StorageError "write"),
         after_write_failure st
           (<[idx := merge_update existing (body req) (now e 0)]> (file st)))
    | None => (Ok not_found_response, after_read st)
    end.
Proof.
  intros Hr Hw.
  unfold update_drama, mbind, handler_bind, db_read, db_write, dramas.
  rewrite Hr. simpl. destruct (list_find _ _) as [[idx existing]|]; [|done].
  simpl. by rewrite Hw.
Qed.

Lemma delete_drama_write_fails id st :
  read_fails io = false → write_fails io = true →
  delete_drama io id st
  = (Throw (StorageError "write"),
     after_write_failure st (filter (λ d, negb (has_id id d)) (file st))).
Proof.
  intros Hr Hw.
  unfold delete_drama, mbind, handler_bind, db_read, db_write, dramas.
  rewrite Hr. simpl. by rewrite Hw.
Qed.

Lemma seed_write_fails req st :
  read_fails io = false → write_fails io = true →
  seed io e req st
  = match seed_samples e req with
    | Ok samples =>
        (Throw (StorageError "write"),
         after_write_failure st (samples ++ file st))
    | Throw err => (Throw err, after_read st)
    end.
Proof.
  intros Hr Hw.
  unfold seed, seed_samples, seed_count, mbind, handler_bind, eval, db_read,
    db_write.
  rewrite Hr. simpl. destruct (ToNumber _) as [n|]; [|done]. simpl.
  destruct (Array_from n (sample e)) as [samples|]; [|done]. simpl.
  unfold spread_arguments.
  destruct (max_arguments e <? Z.of_nat (length samples))%Z; [done|].
  simpl. by rewrite Hw.
Qed.

End Faults.

(** What one request does to the store, whatever storage does: nothing;
    a read that fails; a read and no more; a read and a write that fails;
    or, on the way to an answer, a read and a write. *)
Lemma handle_with_store io cfg e req st :
  let out := handle_with io cfg e req st in
  snd out = st
  ∨ (read_fails io = true ∧ snd out = after_read_failure st ∧
     fst out = Throw (StorageError "read"))
  ∨ (read_fails io = false ∧ snd out = after_read st)
  ∨ (read_fails io = false ∧ write_fails io = true ∧
     fst out = Throw (StorageError "write") ∧
     ∃ l, snd out = after_write_failure st l)
  ∨ (io = reliable ∧ ∃ l resp, fst out = Ok resp ∧ snd out = after_write st l).
Proof.
  cbn zeta. unfold handle_with.
  destruct (target req) as [| |id| |id|id|]; [by left|..];
    try (destruct (decide (authorized cfg req)) as [Hk|Hk];
         [rewrite requireKey_pass by done
         |rewrite requireKey_reject by done; by left]);
    (destruct (read_fails io) eqn:Hr;
     [|destruct (write_fails io) eqn:Hw;
       [|rewrite (faults_reliable io Hr Hw)]]).
  - rewrite list_dramas_read_fails by done. right. by left.
  - rewrite list_dramas_reads, list_dramas_store by done. right. right. by left.
  - rewrite list_dramas_store. right. right. by left.
  - rewrite drama_detail_read_fails by done. right. by left.
  - rewrite drama_detail_reads, drama_detail_run by done.
    right. right. by left.
  - rewrite drama_detail_run. right. right. by left.
  - rewrite create_drama_read_fails by done.
    destruct (new_item _ _ _); [right|]; by left.
  - rewrite create_drama_write_fails by done.
    destruct (new_item _ _ _); [|by left].
    do 3 right. left. split_and!; try done. by eexists.
  - rewrite create_drama_run. destruct (new_item _ _ _); [|by left].
    do 4 right. split; [done|]. by eexists _, _.
  - rewrite update_drama_read_fails by done. right. by left.
  - rewrite update_drama_write_fails by done.
    destruct (list_find _ _) as [[idx existing]|]; [|right; right; by left].
    do 3 right. left. split_and!; try done. by eexists.
  - destruct (list_find (has_id id) (file st)) as [[idx existing]|] eqn:Hf.
    + rewrite (update_drama_found _ _ _ _ _ _ Hf).
      do 4 right. split; [done|]. by eexists _, _.
    + rewrite (update_drama_missing _ _ _ _ Hf). right. right. by left.
  - rewrite delete_drama_read_fails by done. right. by left.
  - rewrite delete_drama_write_fails by done.
    do 3 right. left. split_and!; try done. by eexists.
  - rewrite delete_drama_run. do 4 right. split; [done|]. by eexists _, _.
  - rewrite seed_read_fails by done. right. by left.
  - rewrite seed_write_fails by done.
    destruct (seed_samples e req); [|right; right; by left].
    do 3 right. left. split_and!; try done. by eexists.
  - rewrite seed_run. destruct (seed_samples e req); [|right; right; by left].
    do 4 right. split; [done|]. by eexists _, _.
Qed.

(** X18. What one request does to the store, whether or not lowdb's
    read and write fail and whatever state the request finds: it calls
    [db.read()] at most once and [db.write()] at most once, and the
    write only after the read. The file changes only when both calls went
    through and the request was answered, and then it is [db.data] as JSON
    holds it, each record in JSON form. *)
Theorem X18_request_storage_calls io cfg e req st :
  let out := handle_with io cfg e req st in
  (log (snd out) = log st ∨ log (snd out) = log st ++ [Read] ∨
   log (snd out) = log st ++ [Read; Write]) ∧
  (file (snd out) = file st ∨
   (read_fails io = false ∧ write_fails io = false ∧
    (∃ resp, fst out = Ok resp) ∧
    log (snd out) = log st ++ [Read; Write] ∧
    file (snd out) = json_object <$> data (snd out) ∧
    Forall normal (file (snd out)))).
Proof.
  cbn zeta.
  destruct (handle_with_store io cfg e req st)
    as [->|[(_ & -> & _)|[(_ & ->)|[(_ & _ & _ & l & ->)
       |(-> & l & resp & Hresp & ->)]]]];
    cbn [after_read after_read_failure after_write_failure after_write
         file data log]; rewrite <- ?app_assoc; cbn [app].
  - auto.
  - auto.
  - auto.
  - auto.
  - split; [auto|]. right. split_and!; try done.
    + by exists resp.
    + apply write_normal.
Qed.

(** ** Create *)

Lemma ToNumber_primitive v : primitive v → ∃ n, ToNumber v = Ok n.
Proof. destruct v as [| |[]| | | |]; try done; intros _; by eexists. Qed.

(** X19. An authorized create whose [title] is a string or missing and
    whose [year] and [rating] are not objects never throws: it answers
    201 with the new record, whose [id] is the one [nanoid] returned and
    whose two stamps are the one instant read; the file afterwards is that
    record, as JSON holds it, in front of the records that were there, and
    the store was read once and written once. *)
Theorem X19_create_stores_record cfg e req st :
  target req = CreateDrama → authorized cfg req →
  text_or_absent (member (or_else (body req) (Obj ∅)) "title") →
  primitive (member (or_else (body req) (Obj ∅)) "year") →
  primitive (member (or_else (body req) (Obj ∅)) "rating") →
  ∃ item st',
    handle cfg e req st
    = (Ok {| status := 201; sent := Obj (json_object item) |}, st') ∧
    get item "id" = Str (nanoid e 0) ∧
    get item "created_at" = Str (now e 0) ∧
    get item "updated_at" = Str (now e 0) ∧
    file st' = json_object item :: (json_object <$> file st) ∧
    (Forall normal (file st) → file st' = json_object item :: file st) ∧
    log st' = log st ++ [Read; Write].
Proof.
  intros Ht Hkey Htitle Hyear Hrating.
  destruct (ToNumber_primitive _ Hyear) as (year & Hy).
  destruct (ToNumber_primitive _ Hrating) as (rating & Hr).
  destruct (new_item_normalizes (nanoid e 0) (now e 0) _ year rating
              Htitle Hy Hr)
    as (item & Hitem & Hid & _ & _ & _ & _ & Hc & Hu).
  eexists item, _. unfold handle, handle_with.
  rewrite Ht, (requireKey_pass _ _ _ Hkey), create_drama_run, Hitem.
  split_and!; [|done|done|done| | |]; cbn [file log].
  - unfold res_status_json. by rewrite json_Obj.
  - by rewrite fmap_cons.
  - intros Hn. by rewrite fmap_cons, (normal_fmap _ Hn).
  - by rewrite <- app_assoc.
Qed.

Lemma X19_create_stores_record_witness :
  let req := Sample.keyed CreateDrama ∅
               (Obj {[ "title" := Str " New "; "year" := Str "2021" ]}) in
  ∃ item st',
    handle Sample.cfg Sample.clock req Sample.two_dramas
    = (Ok {| status := 201; sent := Obj (json_object item) |}, st') ∧
    get item "id" = Str (nanoid Sample.clock 0) ∧
    get item "created_at" = Str (now Sample.clock 0) ∧
    get item "updated_at" = Str (now Sample.clock 0) ∧
    file st' = json_object item :: (json_object <$> file Sample.two_dramas) ∧
    (Forall normal (file Sample.two_dramas) →
     file st' = json_object item :: file Sample.two_dramas) ∧
    log st' = log Sample.two_dramas ++ [Read; Write].
Proof.
  intros req.
  apply (X19_create_stores_record Sample.cfg Sample.clock req
           Sample.two_dramas); [reflexivity|reflexivity|exact I..].
Defined.

(** X20. Whatever the payload, a record create builds has the sixteen
    properties of the object literal and no other; its [id] and its two
    stamps are the ones the server drew, whatever the payload says; its
    [title] is a non-empty string, its [rating] a number other than [NaN],
    its [year] a number other than 0 and [NaN] or [undefined], and
    [genres], [cast], [tags] and [episodes] are arrays. *)
Theorem X20_created_record_shape id now payload item :
  new_item id now payload = Ok item →
  dom item = list_to_set item_keys ∧
  get item "id" = Str id ∧
  get item "created_at" = Str now ∧ get item "updated_at" = Str now ∧
  (∃ t, get item "title" = Str t ∧ t ≠ "") ∧
  (∃ r, get item "rating" = Num r ∧ r ≠ NaN) ∧
  (get item "year" = Undefined ∨
   ∃ y, get item "year" = Num y ∧ y ≠ NaN ∧ y ≠ num_of_Z 0) ∧
  (∀ k, k ∈ ["genres"; "cast"; "tags"; "episodes"] →
        isArray (get item k) = true).
Proof.
  unfold new_item. intros Hitem.
  apply result_bind_Ok in Hitem as (title & Htitle & Hitem).
  apply result_bind_Ok in Hitem as (year & _ & Hitem).
  apply result_bind_Ok in Hitem as (rating & _ & Hitem).
  injection Hitem as <-. split_and!.
  - rewrite !dom_insert_L, dom_empty_L. reflexivity.
  - reflexivity.
  - reflexivity.
  - reflexivity.
  - change (∃ t, or_else title (Str "Untitled") = Str t ∧ t ≠ "").
    unfold optional_trim in Htitle.
    destruct (member payload "title") as [| | | |s| |];
      try discriminate Htitle; injection Htitle as <-;
      try (by exists "Untitled").
    unfold or_else. cbn [truthy].
    destruct (String.eqb_spec (trim s) "") as [|Hne]; cbn [negb];
      [by exists "Untitled"|by exists (trim s)].
  - change (∃ r, or_else (Num rating) (Num (num_of_Z 0)) = Num r ∧ r ≠ NaN).
    unfold or_else. destruct (truthy (Num rating)) eqn:Hr.
    + exists rating. split; [done|]. by intros ->.
    + by exists (num_of_Z 0).
  - change (or_else (Num year) Undefined = Undefined ∨
            ∃ y, or_else (Num year) Undefined = Num y ∧ y ≠ NaN ∧
                 y ≠ num_of_Z 0).
    unfold or_else. destruct (truthy (Num year)) eqn:Hy; [right|by left].
    exists year. split_and!; [done|by intros ->|by intros ->].
  - assert (∀ v, isArray (array_or_empty v) = true) as Harr.
    { intros v. unfold array_or_empty. by destruct v. }
    intros k Hk.
    apply elem_of_cons in Hk as [->|Hk];
      [exact (Harr (member payload "genres"))|].
    apply elem_of_cons in Hk as [->|Hk];
      [exact (Harr (member payload "cast"))|].
    apply elem_of_cons in Hk as [->|Hk];
      [exact (Harr (member payload "tags"))|].
    apply elem_of_cons in Hk as [->|Hk];
      [exact (Harr (member payload "episodes"))|].
    by apply elem_of_nil in Hk.
Qed.

Lemma X20_created_record_shape_witness :
  let payload := Obj {[ "id" := Str "mine"; "title" := Str "  ";
                        "rating" := Str "high"; "genres" := Str "Romance";
                        "owner" := Str "me" ]} in
  ∃ item,
    new_item "n0" "t0" payload = Ok item ∧
    dom item = list_to_set item_keys ∧
    get item "id" = Str "n0" ∧
    get item "created_at" = Str "t0" ∧ get item "updated_at" = Str "t0" ∧
    (∃ t, get item "title" = Str t ∧ t ≠ "") ∧
    (∃ r, get item "rating" = Num r ∧ r ≠ NaN) ∧
    (get item "year" = Undefined ∨
     ∃ y, get item "year" = Num y ∧ y ≠ NaN ∧ y ≠ num_of_Z 0) ∧
    (∀ k, k ∈ ["genres"; "cast"; "tags"; "episodes"] →
          isArray (get item k) = true).
Proof.
  intros payload. eexists. split; [reflexivity|].
  exact (X20_created_record_shape "n0" "t0" payload _ eq_refl).
Defined.

(** ** Numbers in the query string *)

Lemma digit_of_pretty_char (d : N) :
  (d < 10)%N → digit_of 10 (pretty_N_char d) = Some (Z.of_N d)
               ∧ is_digit (pretty_N_char d) = true.
Proof.
  intros Hd.
  assert (d = 0 ∨ d = 1 ∨ d = 2 ∨ d = 3 ∨ d = 4 ∨ d = 5 ∨ d = 6 ∨ d = 7
          ∨ d = 8 ∨ d = 9)%N as Hcases by lia.
  repeat (destruct Hcases as [->|Hcases]; [by split|]). by subst.
Qed.

(** Reading back the digits [pretty_N_go] writes in front of [t]. *)
Lemma read_digits_pretty_go (x : N) :
  ∀ t acc k,
    (all_digits t = true → all_digits (pretty_N_go x t) = true) ∧
    ∃ len : nat,
      (x ≠ 0%N → len ≠ 0) ∧
      read_digits 10 (pretty_N_go x t) acc k
      = read_digits 10 t (acc * 10 ^ Z.of_nat len + Z.of_N x)%Z (k + len).
Proof.
  induction (N.lt_wf_0 x) as [x _ IH]. intros t acc k.
  destruct (decide (x = 0)%N) as [->|Hx].
  - rewrite pretty_N_go_0. split; [done|]. exists 0. split; [done|].
    rewrite Nat.add_0_r. f_equal. cbn. lia.
  - rewrite pretty_N_go_step by lia.
    destruct (digit_of_pretty_char (x `mod` 10)%N) as [Hd Hdig].
    { apply N.mod_lt. lia. }
    assert (x `div` 10 < x)%N as Hlt by (apply N.div_lt; lia).
    destruct (IH _ Hlt (String (pretty_N_char (x `mod` 10)) t) acc k)
      as [Hall (len & _ & Hread)].
    split.
    + intros Ht. apply Hall. cbn [all_digits]. by rewrite Hdig, Ht.
    + exists (S len). split; [done|].
      rewrite Hread. cbn [read_digits]. rewrite Hd.
      f_equal; [|lia].
      rewrite N2Z.inj_div, N2Z.inj_mod, Nat2Z.inj_succ, Z.pow_succ_r by lia.
      pose proof (Z.div_mod (Z.of_N x) 10). change (Z.of_N 10) with 10%Z. lia.
Qed.

Lemma digit_not_space c : is_digit c = true → is_space c = false.
Proof.
  unfold is_digit, is_space. intros [H1 H2]%andb_prop.
  apply Nat.leb_le in H1, H2. apply orb_false_iff. split.
  - apply Nat.eqb_neq. lia.
  - apply andb_false_iff. right. apply Nat.leb_gt. lia.
Qed.

Lemma trim_digits s : all_digits s = true → trim s = s.
Proof.
  intros Hs. unfold trim.
  assert (trimStart s = s) as ->.
  { destruct s as [|c s]; [done|]. cbn [all_digits] in Hs.
    apply andb_prop in Hs as [Hc _]. cbn [trimStart].
    by rewrite (digit_not_space _ Hc). }
  induction s as [|c s IH]; [done|]. cbn [all_digits] in Hs.
  apply andb_prop in Hs as [Hc Hs]. cbn [trimEnd]. rewrite (IH Hs).
  destruct s; [|done]. by rewrite (digit_not_space _ Hc).
Qed.

Lemma literal_value_digits s :
  all_digits s = true → s ≠ "" → literal_value s = read_decimal s.
Proof.
  intros Hs Hne. unfold literal_value. rewrite (trim_digits _ Hs).
  destruct s as [|c s]; [done|]. cbn [all_digits] in Hs.
  apply andb_prop in Hs as [Hc Hs].
  destruct c as [[] [] [] [] [] [] [] []]; try discriminate Hc;
    try reflexivity.
  destruct s as [|c s]; [reflexivity|]. cbn [all_digits] in Hs.
  apply andb_prop in Hs as [Hc' _].
  destruct c as [[] [] [] [] [] [] [] []]; try discriminate Hc'; reflexivity.
Qed.

Lemma read_decimal_digits s v len :
  read_digits 10 s 0 0 = (v, S len, "") → read_decimal s = num_of_Z v.
Proof.
  intros Hread. unfold read_decimal. rewrite Hread. cbn [Nat.add Nat.eqb].
  cbn [read_exponent]. unfold num_of_Z. f_equal. apply Qred_integer.
  unfold Qeq, pow10. cbn. lia.
Qed.

(** What the decimal digits of a natural write is that natural. *)
Lemma literal_value_pretty (n : nat) :
  literal_value (pretty n) = num_of_nat n.
Proof.
  unfold pretty, pretty_nat, pretty, pretty_N.
  destruct (decide (N.of_nat n = 0)%N) as [H0|Hn].
  - assert (n = 0) as -> by lia. reflexivity.
  - destruct (read_digits_pretty_go (N.of_nat n) "" 0%Z 0)
      as [Hall (len & Hlen & Hread)].
    cbn [read_digits] in Hread. rewrite Z.mul_0_l, Z.add_0_l in Hread.
    rewrite nat_N_Z in Hread. cbn [Nat.add] in Hread.
    destruct len as [|len]; [by destruct Hlen|].
    assert (pretty_N_go (N.of_nat n) "" ≠ "") as Hne.
    { intros Heq. by rewrite Heq in Hread. }
    rewrite literal_value_digits by auto.
    by apply read_decimal_digits in Hread.
Qed.

Lemma round_div_1 (w : Z) : round_div w 1 = w.
Proof. unfold round_div. by rewrite Z.div_1_r, Z.mod_1_r. Qed.

Lemma floor_log2_Z (z : Z) : (0 < z)%Z → floor_log2 z 1 = Z.log2 z.
Proof.
  intros Hz. unfold floor_log2, scaled. change (Z.log2 1) with 0%Z.
  rewrite Z.sub_0_r. pose proof (Z.log2_nonneg z).
  destruct (Z.leb_spec 0 (Z.log2 z)) as [_|]; [|lia].
  pose proof (Z.log2_spec z Hz).
  destruct (Z.ltb_spec z (1 * 2 ^ Z.log2 z)); lia.
Qed.

Lemma significand_Z (z e : Z) :
  (e ≤ 0)%Z → significand z 1 e = (z * 2 ^ (- e))%Z.
Proof.
  intros He. unfold significand, scaled.
  destruct (Z.leb_spec 0 e) as [H0|_].
  - assert (e = 0)%Z as -> by lia. change (1 * 2 ^ 0)%Z with 1%Z.
    change (2 ^ (- 0))%Z with 1%Z. rewrite Z.mul_1_r. apply round_div_1.
  - apply round_div_1.
Qed.

(** The whole numbers up to [2^53] are Number values. *)
Lemma binary64_Z (z : Z) :
  (0 ≤ z ≤ 2 ^ 53)%Z → binary64 (inject_Z z) = num_of_Z z.
Proof.
  intros Hz. unfold binary64, num_of_Z, Qsign_neg.
  cbn [inject_Z Qnum Qden]. rewrite Z.abs_eq by lia.
  destruct (Z.eqb_spec z 0) as [->|Hne]; [done|].
  destruct (Z.ltb_spec z 0) as [|_]; [lia|].
  rewrite floor_log2_Z by lia.
  assert (Z.log2 z ≤ 53)%Z as Hk.
  { change 53%Z with (Z.log2 (2 ^ 53)). apply Z.log2_le_mono. lia. }
  pose proof (Z.log2_nonneg z) as Hk0.
  rewrite Z.max_l by lia.
  destruct (decide (Z.log2 z = 53%Z)) as [H53|H53].
  - assert (z = 2 ^ 53)%Z as ->.
    { pose proof (Z.log2_spec z ltac:(lia)) as Hs. rewrite H53 in Hs. lia. }
    reflexivity.
  - rewrite significand_Z by lia.
    assert (z * 2 ^ (- (Z.log2 z - 52)) * 2 ^ (Z.log2 z - 52) < 2 ^ 1024
            ∨ Z.log2 z - 52 < 0)%Z as Hsmall.
    { destruct (decide (Z.log2 z = 52%Z)) as [->|]; [left|right; lia].
      change (2 ^ (- (52 - 52)))%Z with 1%Z.
      change (2 ^ (52 - 52))%Z with 1%Z.
      assert (2 ^ 53 < 2 ^ 1024)%Z by reflexivity. lia. }
    assert (((0 <=? Z.log2 z - 52)
             && (2 ^ 1024 <=? z * 2 ^ (- (Z.log2 z - 52))
                              * 2 ^ (Z.log2 z - 52)))%Z = false) as ->.
    { apply andb_false_iff. destruct Hsmall; [right|left]; lia. }
    f_equal. apply Qred_integer. unfold pow2.
    destruct (Z.ltb_spec (Z.log2 z - 52) 0) as [Hneg|Hpos].
    + unfold Qeq. cbn [Qnum Qden inject_Z Qmult].
      rewrite Pos.mul_1_l, Z2Pos.id by (apply Z.pow_pos_nonneg; lia). lia.
    + assert (Z.log2 z - 52 = 0)%Z as -> by lia.
      unfold Qeq. cbn. lia.
Qed.

(** [Number(String(n)) = n] for the naturals up to [2^53]; a greater one
    may be rounded. *)
Lemma StringToNumber_pretty (n : nat) :
  (Z.of_nat n ≤ 2 ^ 53)%Z → StringToNumber (pretty n) = num_of_nat n.
Proof.
  intros Hn. unfold StringToNumber. rewrite literal_value_pretty.
  unfold num_of_nat, num_of_Z. apply binary64_Z. lia.
Qed.

Lemma list_query_default (lst : list object) :
  Forall stamped lst →
  ∃ sorted, list_query ∅ lst
            = Ok (paginate sorted (Some (num_of_Z 1)) (Some (num_of_Z 24))) ∧
            sorted ≡ₚ lst.
Proof.
  intros Hl.
  destruct (sort_by_updated_at_desc lst Hl) as (sorted & Hs & _).
  exists sorted. split.
  - unfold list_query, param, get. rewrite !lookup_empty.
    cbn [from_option id]. unfold search_filter, genre_filter, status_filter,
      min_year_filter, max_year_filter.
    cbn [truthy String.eqb negb mbind result_bind]. by rewrite Hs.
  - unfold sort_by in Hs. apply result_bind_Ok in Hs as (s & _ & Hs).
    by apply sort_perm in Hs.
Qed.

(** X21. Seed with the count written in decimal in the query string, as
    a client sends it, on a catalog in JSON form whose [updated_at]s are
    strings: for [count=N] with [N] at most [2^32 - 1] and at most the
    number of arguments the engine takes in one call, the answer is
    [{ok: true, added: N}], the file has [N] more records, and a listing
    without parameters then answers 200 with [total] grown by [N]. *)
Theorem X21_seed_then_list cfg e e' req req' st (N : nat) :
  target req = Seed → authorized cfg req →
  query req !! "count" = Some (Str (pretty N)) →
  (Z.of_nat N ≤ 2 ^ 32 - 1)%Z → (Z.of_nat N ≤ max_arguments e)%Z →
  Forall normal (file st) → Forall stamped (file st) →
  target req' = ListDramas → query req' = ∅ →
  ∃ st' pg,
    handle cfg e req st
    = (Ok {| status := 200;
             sent := Obj {[ "ok" := Bool true;
                            "added" := Num (num_of_nat N) ]} |}, st') ∧
    length (file st') = N + length (file st) ∧
    fst (handle cfg e' req' st')
    = Ok {| status := 200; sent := json (page_value pg) |} ∧
    total pg = N + length (file st).
Proof.
  intros Ht Hkey Hcount H32 Hargs Hn Hs Ht' Hq'.
  assert (2 ^ 32 - 1 < 2 ^ 53)%Z as H53 by reflexivity.
  assert (seed_count req = Ok (num_of_nat N)) as Hseed.
  { unfold seed_count, param, get. rewrite Hcount. cbn [from_option id].
    cbn [ToNumber]. rewrite StringToNumber_pretty; [done|lia]. }
  set (st' := {| file := json_object <$> ((sample e <$> seq 0 N) ++ file st);
                 data := (sample e <$> seq 0 N) ++ file st;
                 log := (log st ++ [Read]) ++ [Write] |}).
  assert (file st' = (sample e <$> seq 0 N) ++ file st) as Hfile.
  { cbn [st' file]. apply normal_fmap, Forall_app. auto using samples_normal. }
  assert (Forall stamped (file st')) as Hs'.
  { rewrite Hfile. apply Forall_app. split; [|done].
    apply Forall_fmap, Forall_forall. by intros i _. }
  destruct (list_query_default _ Hs') as (sorted & Hlist & Hperm).
  exists st', (paginate sorted (Some (num_of_Z 1)) (Some (num_of_Z 24))).
  assert (length (file st') = N + length (file st)) as Hlen.
  { by rewrite Hfile, length_app, length_fmap, length_seq. }
  split_and!.
  - unfold handle, handle_with.
    rewrite Ht, (requireKey_pass _ _ _ Hkey), seed_run.
    rewrite (seed_samples_nat _ _ _ Hseed H32 Hargs).
    by rewrite length_fmap, length_seq.
  - done.
  - unfold handle, handle_with.
    rewrite Ht', list_dramas_run, Hq', Hlist. done.
  - unfold paginate. cbn [total]. by rewrite Hperm.
Qed.

Lemma X21_seed_then_list_witness :
  let req := Sample.keyed Seed {[ "count" := Str "3" ]} Undefined in
  let req' := {| target := ListDramas; headers := ∅; query := ∅;
                 body := Undefined |} in
  ∃ st' pg,
    handle Sample.cfg Sample.clock req More.shelf
    = (Ok {| status := 200;
             sent := Obj {[ "ok" := Bool true;
                            "added" := Num (num_of_nat 3) ]} |}, st') ∧
    length (file st') = 3 + length (file More.shelf) ∧
    fst (handle Sample.cfg Sample.clock req' st')
    = Ok {| status := 200; sent := json (page_value pg) |} ∧
    total pg = 3 + length (file More.shelf).
Proof.
  intros req req'.
  apply (X21_seed_then_list Sample.cfg Sample.clock Sample.clock req req'
           More.shelf 3); try reflexivity.
  - simpl. lia.
  - simpl. lia.
  - repeat constructor.
  - exact shelf_stamped.
Defined.

(** X22. The list route with [page] and [limit] written in decimal in
    the query string, both at least 1 and at most [2^53] (the text of a
    greater number may be read as another number, or as [Infinity]):
    when the query returns, the items
    are those at the positions from [(page-1)*limit] up to, not including,
    [page*limit] of a list of stored records, [total] is the length of
    that list, [page] and [limit] come back as numbers and [pages] is the
    least whole number of pages that hold [total] records. *)
Theorem X22_list_page_text cfg e req st (p L : nat) resp :
  target req = ListDramas →
  query req !! "page" = Some (Str (pretty p)) →
  query req !! "limit" = Some (Str (pretty L)) →
  1 ≤ p → 1 ≤ L → (Z.of_nat p ≤ 2 ^ 53)%Z → (Z.of_nat L ≤ 2 ^ 53)%Z →
  fst (handle cfg e req st) = Ok resp →
  ∃ lst pg,
    resp = {| status := 200; sent := json (page_value pg) |} ∧
    lst ⊆+ file st ∧
    items pg = take L (drop ((p - 1) * L) lst) ∧
    page pg = num_of_nat p ∧ limit pg = num_of_nat L ∧
    total pg = length lst ∧
    ∃ c, pages pg = num_of_Z c ∧
         ((c - 1) * Z.of_nat L < Z.of_nat (length lst) ≤ c * Z.of_nat L)%Z.
Proof.
  intros Ht Hpage Hlimit Hp HL Hp53 HL53. unfold handle, handle_with.
  rewrite Ht, list_dramas_run. cbn [fst].
  destruct (list_query (query req) (file st)) as [pg|] eqn:Hq; [|done].
  intros [= <-]. unfold list_query in Hq.
  apply result_bind_Ok in Hq as (l1 & H1 & Hq).
  apply result_bind_Ok in Hq as (l2 & H2 & Hq).
  apply result_bind_Ok in Hq as (l3 & H3 & Hq).
  apply result_bind_Ok in Hq as (l4 & H4 & Hq).
  apply result_bind_Ok in Hq as (l5 & H5 & Hq).
  apply result_bind_Ok in Hq as (l6 & H6 & Hq).
  assert (param (query req) "page" (Str "1") = Str (pretty p)) as Hpp.
  { unfold param, get. by rewrite Hpage. }
  assert (param (query req) "limit" (Str "24") = Str (pretty L)) as Hpl.
  { unfold param, get. by rewrite Hlimit. }
  rewrite Hpp, Hpl in Hq. cbn [ToNumber mbind result_bind] in Hq.
  rewrite !StringToNumber_pretty in Hq by done. injection Hq as <-.
  exists l6, (paginate l6 (Some (num_of_nat p)) (Some (num_of_nat L))).
  split; [done|].
  assert (l5 `sublist_of` file st) as Hsub.
  { transitivity l4; [by eapply max_year_filter_sublist|].
    transitivity l3; [by eapply min_year_filter_sublist|].
    transitivity l2; [by eapply status_filter_sublist|].
    transitivity l1; [by eapply genre_filter_sublist|].
    by eapply search_filter_sublist. }
  assert (l6 ≡ₚ l5) as Hperm.
  { unfold sort_by in H6. apply result_bind_Ok in H6 as (s & _ & H6).
    by apply sort_perm in H6. }
  split_and!.
  - rewrite Hperm. by apply sublist_submseteq.
  - unfold num_of_nat. rewrite paginate_items by lia.
    rewrite Nat2Z.id. do 2 f_equal. nia.
  - done.
  - done.
  - done.
  - unfold paginate. cbn [pages from_option id].
    apply Math_ceil_div. lia.
Qed.

Lemma X22_list_page_text_witness :
  let req := {| target := ListDramas; headers := ∅;
                query := {[ "page" := Str "2"; "limit" := Str "1" ]};
                body := Undefined |} in
  ∃ resp lst pg,
    fst (handle Sample.cfg Sample.clock req More.shelf) = Ok resp ∧
    resp = {| status := 200; sent := json (page_value pg) |} ∧
    lst ⊆+ file More.shelf ∧
    items pg = take 1 (drop ((2 - 1) * 1) lst) ∧
    page pg = num_of_nat 2 ∧ limit pg = num_of_nat 1 ∧
    total pg = length lst ∧
    ∃ c, pages pg = num_of_Z c ∧
         ((c - 1) * Z.of_nat 1 < Z.of_nat (length lst) ≤ c * Z.of_nat 1)%Z.
Proof.
  intros req. eexists.
  pose proof (X22_list_page_text Sample.cfg Sample.clock req More.shelf 2 1 _
                eq_refl eq_refl eq_refl (le_S _ _ (le_n 1)) (le_n 1)
                ltac:(simpl; lia) ltac:(simpl; lia) eq_refl)
    as (lst & pg & H).
  exists lst, pg. split; [reflexivity|exact H].
Defined.

(** ** Sort parameters *)

Lemma sort_all_equal {A} (cmp : A → A → result Z) (l : list A) :
  (∀ x y, x ∈ l → y ∈ l → cmp x y = Ok 0%Z) → sort cmp l = Ok l.
Proof.
  induction l as [|x l IH]; intros Hcmp; [done|]. cbn [sort].
  rewrite IH by (intros; apply Hcmp; by constructor). cbn.
  destruct l as [|y l]; [done|]. cbn [insert_sorted].
  rewrite Hcmp by (repeat constructor). done.
Qed.

(** X23. Sorting on a property that no record of the list has (or has
    as [null]) returns the list in the order it had, whatever the
    direction: every record stands for 0 in the comparison. This is so
    for a misspelt field and for [sort=] with nothing after it. *)
Theorem X23_sort_on_absent_field (s : string) (lst : list object) :
  Forall (λ d, nullish (get d (default "" (split_colon s !! 0))) = true) lst →
  sort_by (Str s) lst = Ok lst.
Proof.
  intros Hl. unfold sort_by. cbn [ToString mbind result_bind].
  apply sort_all_equal. intros a b Ha Hb.
  rewrite Forall_forall in Hl. unfold compare_by.
  by rewrite (Hl a Ha), (Hl b Hb).
Qed.

Lemma X23_sort_on_absent_field_witness :
  sort_by (Str "views:desc") (file More.shelf) = Ok (file More.shelf).
Proof.
  apply (X23_sort_on_absent_field "views:desc" (file More.shelf)).
  repeat constructor.
Defined.

(** X24. Only the direction spelt exactly [desc] sorts downwards: two
    sort parameters that name the same field, neither with [desc] after
    the first colon, sort every list alike (so [year], [year:asc],
    [year:DESC] and [year:down] all sort by year upwards). *)
Theorem X24_sort_direction (s s' : string) (lst : list object) :
  split_colon s !! 0 = split_colon s' !! 0 →
  split_colon s !! 1 ≠ Some "desc" → split_colon s' !! 1 ≠ Some "desc" →
  sort_by (Str s) lst = sort_by (Str s') lst.
Proof.
  intros Hfield Hdir Hdir'. unfold sort_by. cbn [ToString mbind result_bind].
  rewrite Hfield.
  assert (∀ parts : list string, parts !! 1 ≠ Some "desc" →
            strict_eq_str (from_option Str Undefined (parts !! 1)) "desc"
            = false) as Hup.
  { intros parts Hp. destruct (parts !! 1) as [d|]; [|done]. cbn.
    destruct (String.eqb_spec d "desc") as [->|]; [by destruct Hp|done]. }
  assert (∀ field dir dir',
            strict_eq_str dir "desc" = false →
            strict_eq_str dir' "desc" = false →
            ∀ l, sort (compare_by field dir) l
                 = sort (compare_by field dir') l) as Hsame.
  { intros field dir dir' H1 H2.
    assert (∀ a b, compare_by field dir a b = compare_by field dir' a b)
      as Hcmp.
    { intros a b. unfold compare_by. by rewrite H1, H2. }
    assert (∀ x l, insert_sorted (compare_by field dir) x l
                   = insert_sorted (compare_by field dir') x l) as Hins.
    { intros x l. induction l as [|y l IH]; [done|]. cbn [insert_sorted].
      by rewrite Hcmp, IH. }
    induction l as [|x l IH]; [done|]. cbn [sort]. rewrite IH.
    destruct (sort (compare_by field dir') l); [apply Hins|done]. }
  apply Hsame; by apply Hup.
Qed.

Lemma X24_sort_direction_witness :
  sort_by (Str "updated_at:DESC") (file More.shelf)
  = sort_by (Str "updated_at") (file More.shelf).
Proof.
  apply (X24_sort_direction "updated_at:DESC" "updated_at" (file More.shelf));
    [reflexivity|discriminate|discriminate].
Defined.

(** ** Update and the other records; requests that throw *)

(** X25. Update writes one position only: the record it replaces is the
    first whose [id] is the one asked for, the catalog keeps its length,
    and every other record, a later one with the same [id] included, is
    left as it was. *)
Theorem X25_update_first_match_only cfg e req st id idx existing :
  target req = UpdateDrama id → authorized cfg req →
  Forall normal (file st) →
  list_find (has_id id) (file st) = Some (idx, existing) →
  let after := file (snd (handle cfg e req st)) in
  (∀ j d, j < idx → file st !! j = Some d → has_id id d = false) ∧
  length after = length (file st) ∧
  ∀ j, j ≠ idx → after !! j = file st !! j.
Proof.
  intros Ht Hkey Hn Hfind after. subst after. unfold handle, handle_with.
  rewrite Ht, (requireKey_pass _ _ _ Hkey).
  rewrite (update_drama_found _ _ _ _ _ _ Hfind).
  cbn [snd file]. apply list_find_Some in Hfind as (Hidx & _ & Hbefore).
  split_and!.
  - intros j d Hj Hd. specialize (Hbefore j d Hd Hj).
    by destruct (has_id id d).
  - by rewrite length_fmap, length_insert.
  - intros j Hj. rewrite list_lookup_fmap, list_lookup_insert_ne by done.
    destruct (file st !! j) as [d|] eqn:Hd; [|done]. cbn. f_equal.
    rewrite Forall_forall in Hn. apply Hn. by eapply list_elem_of_lookup_2.
Qed.

Lemma X25_update_first_match_only_witness :
  let twin : object := {[ "id" := Str "m"; "title" := Str "Twin" ]} in
  let st := {| file := file More.shelf ++ [twin]; data := []; log := [] |} in
  let req := Sample.keyed (UpdateDrama "m") ∅
               (Obj {[ "title" := Str "Renamed" ]}) in
  let after := file (snd (handle Sample.cfg Sample.clock req st)) in
  (∀ j d, j < 0 → file st !! j = Some d → has_id "m" d = false) ∧
  length after = length (file st) ∧
  ∀ j, j ≠ 0 → after !! j = file st !! j.
Proof.
  intros twin st req.
  apply (X25_update_first_match_only Sample.cfg Sample.clock req st "m" 0
           More.middle); try reflexivity.
  repeat constructor.
Defined.

(** X26. A request that throws has written nothing, also when it is
    lowdb's read or write that rejects: the file is as it was. On a
    store that does not fail, only the list, create and seed routes
    throw. *)
Theorem X26_throw_writes_nothing io cfg e req st err :
  fst (handle_with io cfg e req st) = Throw err →
  file (snd (handle_with io cfg e req st)) = file st ∧
  (read_fails io = false → write_fails io = false →
   target req = ListDramas ∨ target req = CreateDrama ∨ target req = Seed).
Proof.
  intros Hthrow. split.
  - destruct (handle_with_store io cfg e req st)
      as [->|[(_ & -> & _)|[(_ & ->)|[(_ & _ & _ & l & ->)
         |(_ & l & resp & Hresp & _)]]]]; try done.
    by rewrite Hresp in Hthrow.
  - intros Hr Hw. rewrite (faults_reliable io Hr Hw) in Hthrow.
    revert Hthrow. unfold handle_with.
    destruct (target req) as [| |id| |id|id|] eqn:Ht; auto.
    + discriminate.
    + rewrite drama_detail_run. discriminate.
    + destruct (decide (authorized cfg req)) as [Hk|Hk];
        [rewrite requireKey_pass by done
        |rewrite requireKey_reject by done; discriminate].
      destruct (list_find (has_id id) (file st)) as [[idx existing]|] eqn:Hf.
      * rewrite (update_drama_found _ _ _ _ _ _ Hf). discriminate.
      * rewrite (update_drama_missing _ _ _ _ Hf). discriminate.
    + destruct (decide (authorized cfg req)) as [Hk|Hk];
        [rewrite requireKey_pass by done
        |rewrite requireKey_reject by done; discriminate].
      rewrite delete_drama_run. discriminate.
Qed.

Lemma X26_throw_writes_nothing_witness :
  let io := {| read_fails := false; write_fails := true |} in
  let req := Sample.keyed (DeleteDrama "a") ∅ Undefined in
  file (snd (handle_with io Sample.cfg Sample.clock req Sample.two_dramas))
  = file Sample.two_dramas ∧
  (read_fails io = false → write_fails io = false →
   target req = ListDramas ∨ target req = CreateDrama ∨ target req = Seed).
Proof.
  intros io req.
  exact (X26_throw_writes_nothing io Sample.cfg Sample.clock req
           Sample.two_dramas _ eq_refl).
Defined.
